(** * appraiseai-api: price parsing, listings search and the /predict endpoint

    A shallow embedding of [api/pipeline.py] and [api/main.py].

    - Python [str] values are sequences of Unicode code points ([pystr]);
      the regular expressions of [parse_price_any] are kept as syntax trees
      and run by a backtracking matcher with the priorities of Python's
      [re] (ordered alternation, greedy repetition, leftmost start).
    - Python [float] values are binary64 numbers ([spec_float] of the
      standard library), obtained by correct rounding.
    - Exceptions are explicit ([result]); the remote client, the upload
      body and the JSON decoder are oracles, and every remote call and
      body read is recorded in a trace. *)

From Stdlib Require Import String Ascii.
From Stdlib Require Import List NArith ZArith Bool Lia.
From Stdlib Require Import Floats.SpecFloat.
From Stdlib Require Import DecimalNat.
Import ListNotations.
Open Scope list_scope.

Set Implicit Arguments.

(* ================================================================= *)
(** * Python strings *)

Module PyStr.

(** A code point. *)
Definition char := N.

(** A Python [str]. *)
Definition pystr := list char.

Fixpoint bytes_of (s : string) : list N :=
  match s with
  | EmptyString => []
  | String a s' => N_of_ascii a :: bytes_of s'
  end.

(** UTF-8 decoding, to write [str] literals as they stand in the source.
    A truncated sequence decodes to U+FFFD. *)
Fixpoint utf8_decode (bs : list N) : pystr :=
  match bs with
  | [] => []
  | b0 :: t0 =>
    if (b0 <? 128)%N then b0 :: utf8_decode t0
    else
      match t0 with
      | [] => [65533%N]
      | b1 :: t1 =>
        if (b0 <? 224)%N then
          ((b0 - 192) * 64 + (b1 - 128))%N :: utf8_decode t1
        else
          match t1 with
          | [] => [65533%N]
          | b2 :: t2 =>
            if (b0 <? 240)%N then
              ((b0 - 224) * 4096 + (b1 - 128) * 64 + (b2 - 128))%N
                :: utf8_decode t2
            else
              match t2 with
              | [] => [65533%N]
              | b3 :: t3 =>
                ((b0 - 240) * 262144 + (b1 - 128) * 4096
                 + (b2 - 128) * 64 + (b3 - 128))%N :: utf8_decode t3
              end
          end
      end
  end.

(** [py "..."] is the [str] literal with that text. *)
Definition py (s : string) : pystr := utf8_decode (bytes_of s).

(** [ch "x"] is the code point of a one-character literal. *)
Definition ch (s : string) : char := hd 0%N (py s).

(** The double quote and the line feed, which a literal cannot hold. *)
Definition dquote : char := 34%N.
Definition newline : char := 10%N.

Definition is_digit (c : char) : bool := ((48 <=? c) && (c <=? 57))%N.

(** [str.isspace] on one code point: what [\s] matches in a [str]
    pattern and what [str.strip()] removes. *)
Definition is_space (c : char) : bool :=
  (((9 <=? c) && (c <=? 13)) || ((28 <=? c) && (c <=? 32))
   || (c =? 133) || (c =? 160) || (c =? 5760)
   || ((8192 <=? c) && (c <=? 8202))
   || (c =? 8232) || (c =? 8233) || (c =? 8239) || (c =? 8287)
   || (c =? 12288))%N.

Fixpoint lstrip (s : pystr) : pystr :=
  match s with
  | c :: s' => if is_space c then lstrip s' else s
  | [] => []
  end.

Definition rstrip (s : pystr) : pystr := rev (lstrip (rev s)).

(** [s.strip()] *)
Definition strip (s : pystr) : pystr := rstrip (lstrip s).

Fixpoint startswith (s prefix : pystr) : bool :=
  match prefix, s with
  | [], _ => true
  | p :: prefix', c :: s' => (c =? p)%N && startswith s' prefix'
  | _ :: _, [] => false
  end.

(** [s.replace(c, "")] for a one-character [c]. *)
Definition remove_char (c : char) (s : pystr) : pystr :=
  filter (fun x => negb (x =? c)%N) s.

Fixpoint str_eqb (a b : pystr) : bool :=
  match a, b with
  | [], [] => true
  | x :: a', y :: b' => (x =? y)%N && str_eqb a' b'
  | _, _ => false
  end.

(** Truth value of a [str] or a [list]: empty is falsy. *)
Definition truthy {A} (l : list A) : bool :=
  match l with [] => false | _ :: _ => true end.

(** [x or d] on values whose falsy element is the empty sequence. *)
Definition py_or {A} (x d : list A) : list A := if truthy x then x else d.

(** ** [str(n)] for an [int] *)

Fixpoint uint_str (d : Decimal.uint) : pystr :=
  match d with
  | Decimal.Nil => []
  | Decimal.D0 d' => 48%N :: uint_str d'
  | Decimal.D1 d' => 49%N :: uint_str d'
  | Decimal.D2 d' => 50%N :: uint_str d'
  | Decimal.D3 d' => 51%N :: uint_str d'
  | Decimal.D4 d' => 52%N :: uint_str d'
  | Decimal.D5 d' => 53%N :: uint_str d'
  | Decimal.D6 d' => 54%N :: uint_str d'
  | Decimal.D7 d' => 55%N :: uint_str d'
  | Decimal.D8 d' => 56%N :: uint_str d'
  | Decimal.D9 d' => 57%N :: uint_str d'
  end.

Definition str_of_nat (n : nat) : pystr := uint_str (Nat.to_uint n).

Definition str_of_int (z : Z) : pystr :=
  match z with
  | Zneg p => 45%N :: str_of_nat (Pos.to_nat p)
  | _ => str_of_nat (Z.to_nat z)
  end.

End PyStr.

Import PyStr.

(* ================================================================= *)
(** * Exceptions *)

(** An instance of Python's [Exception]: [exn_type] is
    [type(e).__name__] and [exn_msg] is [str(e)]. *)
Record exn := Exc { exn_type : pystr; exn_msg : pystr }.

Inductive result (A : Type) : Type :=
| Return (a : A)
| Raise (e : exn).

Arguments Return {A} a.
Arguments Raise {A} e.

Definition ValueError (msg : pystr) : exn := Exc (py "ValueError") msg.
Definition OverflowError (msg : pystr) : exn := Exc (py "OverflowError") msg.
Definition AttributeError (msg : pystr) : exn := Exc (py "AttributeError") msg.
Definition RuntimeError (msg : pystr) : exn := Exc (py "RuntimeError") msg.

(** [isinstance(e, cls)] for a class named [cls] without subclasses. *)
Definition exn_is (e : exn) (cls : pystr) : bool := str_eqb (exn_type e) cls.

(* ================================================================= *)
(** * Python floats *)

Module PyFloat.

(** binary64 *)
Definition float := spec_float.

Definition prec : Z := 53.
Definition emax : Z := 1024.

(** The binary64 number nearest to [m * 10^e] (ties to even),
    infinite beyond the range. *)
Definition of_decimal (neg : bool) (m : N) (e : Z) : float :=
  match m with
  | N0 => S754_zero neg
  | Npos p =>
    if (0 <=? e)%Z then
      binary_normalize prec emax
        (if neg then Zneg p * 10 ^ e else Zpos p * 10 ^ e)%Z 0 neg
    else
      SFdiv prec emax (S754_finite neg p 0)
            (S754_finite false (Z.to_pos (10 ^ (- e))) 0)
  end.

(** [float(n)] for an [int]: the nearest binary64 number, and
    [OverflowError] when that is out of range. *)
Definition of_int (z : Z) : result float :=
  match binary_normalize prec emax z 0 false with
  | S754_infinity _ =>
    Raise (OverflowError (py "int too large to convert to float"))
  | f => Return f
  end.

(** Value of a string of ASCII digits, most significant first. *)
Fixpoint digits_value (acc : N) (ds : pystr) : N :=
  match ds with
  | [] => acc
  | d :: ds' => digits_value (acc * 10 + (d - 48))%N ds'
  end.

(** Longest prefix of ASCII digits, and the rest. *)
Fixpoint span_digits (s : pystr) : pystr * pystr :=
  match s with
  | c :: s' =>
    if is_digit c then let (ds, r) := span_digits s' in (c :: ds, r)
    else ([], s)
  | [] => ([], [])
  end.

Definition ascii_lower (c : char) : char :=
  if ((65 <=? c) && (c <=? 90))%N then (c + 32)%N else c.

Definition lower_eqb (s w : pystr) : bool := str_eqb (map ascii_lower s) w.

(** The exponent part [e[+-]digits] of a literal: its value and the
    rest, [None] when an [e] is not followed by an exponent. *)
Definition parse_exponent (s : pystr) : option (Z * pystr) :=
  match s with
  | c :: s1 =>
    if (ascii_lower c =? ch "e")%N then
      let '(neg, s2) :=
        match s1 with
        | c1 :: s1' =>
          if (c1 =? ch "-")%N then (true, s1')
          else if (c1 =? ch "+")%N then (false, s1')
          else (false, s1)
        | [] => (false, s1)
        end in
      let (ds, s3) := span_digits s2 in
      match ds with
      | [] => None
      | _ :: _ =>
        let v := Z.of_N (digits_value 0 ds) in
        Some (if neg then (- v)%Z else v, s3)
      end
    else Some (0%Z, s)
  | [] => Some (0%Z, [])
  end.

Definition not_a_float : exn :=
  ValueError (py "could not convert string to float").

(** A leading sign. *)
Definition split_sign (s : pystr) : bool * pystr :=
  match s with
  | c :: s' =>
    if (c =? ch "-")%N then (true, s')
    else if (c =? ch "+")%N then (false, s')
    else (false, s)
  | [] => (false, [])
  end.

(** The digits after a dot, if the text starts with a dot. *)
Definition split_fraction (s : pystr) : pystr * pystr :=
  match s with
  | c :: s' => if (c =? ch ".")%N then span_digits s' else ([], s)
  | [] => ([], [])
  end.

(** [float(s)] for a [str]: surrounding whitespace, a sign, then
    [inf], [infinity], [nan] or a decimal literal with optional fraction
    and exponent.  Digit-group underscores and non-ASCII digits are left
    out: such strings are answered with [ValueError] here. *)
Definition of_str (s : pystr) : result float :=
  let (neg, s1) := split_sign (strip s) in
  if lower_eqb s1 (py "inf") || lower_eqb s1 (py "infinity") then
    Return (S754_infinity neg)
  else if lower_eqb s1 (py "nan") then Return S754_nan
  else
    let (ip, s2) := span_digits s1 in
    let (fp, s3) := split_fraction s2 in
    match ip ++ fp with
    | [] => Raise not_a_float
    | _ :: _ =>
      match parse_exponent s3 with
      | Some (e, []) =>
        Return (of_decimal neg (digits_value 0 (ip ++ fp))
                           (e - Z.of_nat (length fp)))
      | _ => Raise not_a_float
      end
    end.

End PyFloat.


(* ================================================================= *)
(** * Regular expressions: the part of Python's [re] the parser uses *)

Module Re.

(** An item of a character set [[...]]. *)
Inductive set_item :=
| SChar (c : char)
| SRange (lo hi : char).

(** Pattern syntax. *)
Inductive regex :=
| Lit (c : char)                  (* a literal character *)
| InSet (items : list set_item)   (* [...] *)
| Space                           (* \s *)
| Seq (r1 r2 : regex)             (* r1 r2 *)
| Alt (r1 r2 : regex)             (* r1|r2 *)
| Star (r : regex)                (* r*, greedy *)
| Opt (r : regex)                 (* r?, greedy *)
| Times (n : nat) (r : regex)     (* r{n} *)
| Group (i : nat) (r : regex)     (* (r), capturing group number i *)
| Empty.                          (* the empty pattern *)

(** The literal text [w]. *)
Fixpoint word (w : pystr) : regex :=
  match w with
  | [] => Empty
  | [c] => Lit c
  | c :: w' => Seq (Lit c) (word w')
  end.

Definition is_ascii_letter (c : char) : bool :=
  let l := PyFloat.ascii_lower c in ((97 <=? l) && (l <=? 122))%N.

(** A literal under [re.IGNORECASE] in a [str] pattern.  An uncased
    character matches itself only.  A letter [p] matches the characters
    whose lower case is that of [p], and those the [re] compiler adds as
    equivalent to it: U+017F for [s], U+0131 for [i]; U+212A and U+0130
    have [k] and [i] as lower case.  The pattern letters are ASCII here,
    as in all patterns of this program. *)
Definition lit_eq_ignorecase (p x : char) : bool :=
  if is_ascii_letter p then
    let lo := PyFloat.ascii_lower p in
    ((PyFloat.ascii_lower x =? lo)
     || ((lo =? ch "s") && (x =? 383))
     || ((lo =? ch "k") && (x =? 8490))
     || ((lo =? ch "i") && ((x =? 304) || (x =? 305))))%N
  else (x =? p)%N.

Definition lit_test (ignorecase : bool) (p x : char) : bool :=
  if ignorecase then lit_eq_ignorecase p x else (x =? p)%N.

Definition item_test (ignorecase : bool) (it : set_item) (x : char) : bool :=
  match it with
  | SChar c => lit_test ignorecase c x
  | SRange lo hi => ((lo <=? x) && (x <=? hi))%N
  end.

Definition set_test (ignorecase : bool) (items : list set_item) (x : char)
  : bool :=
  existsb (fun it => item_test ignorecase it x) items.

(** Captured groups, the latest first. *)
Definition caps := list (nat * pystr).

(** What remains to be matched after a sub-pattern: it receives the rest
    of the text and the groups captured so far. *)
Definition kont := pystr -> caps -> option caps.

(** The text between two suffixes [s] and [s1] of the subject. *)
Definition consumed (s s1 : pystr) : pystr :=
  firstn (length s - length s1) s.

Definition one_char (test : char -> bool) (s : pystr) (c : caps) (k : kont)
  : option caps :=
  match s with
  | x :: s' => if test x then k s' c else None
  | [] => None
  end.

(** Greedy repetition: one more round of [body] is tried before the
    rest of the pattern; a round must consume text. *)
Fixpoint star_loop (body : pystr -> caps -> kont -> option caps)
         (n : nat) (s : pystr) (c : caps) (k : kont) : option caps :=
  match n with
  | O => k s c
  | S n' =>
    match body s c (fun s1 c1 =>
                      if (length s1 <? length s)%nat
                      then star_loop body n' s1 c1 k else None) with
    | Some m => Some m
    | None => k s c
    end
  end.

Fixpoint times_loop (body : pystr -> caps -> kont -> option caps)
         (n : nat) (s : pystr) (c : caps) (k : kont) : option caps :=
  match n with
  | O => k s c
  | S n' => body s c (fun s1 c1 => times_loop body n' s1 c1 k)
  end.

(** The backtracking matcher, anchored at the start of [s]. *)
Fixpoint rmatch (ignorecase : bool) (r : regex) (s : pystr) (c : caps)
         (k : kont) : option caps :=
  match r with
  | Lit p => one_char (lit_test ignorecase p) s c k
  | InSet items => one_char (set_test ignorecase items) s c k
  | Space => one_char is_space s c k
  | Seq r1 r2 =>
    rmatch ignorecase r1 s c (fun s1 c1 => rmatch ignorecase r2 s1 c1 k)
  | Alt r1 r2 =>
    match rmatch ignorecase r1 s c k with
    | Some m => Some m
    | None => rmatch ignorecase r2 s c k
    end
  | Star r1 => star_loop (rmatch ignorecase r1) (length s) s c k
  | Opt r1 =>
    match rmatch ignorecase r1 s c k with
    | Some m => Some m
    | None => k s c
    end
  | Times n r1 => times_loop (rmatch ignorecase r1) n s c k
  | Group i r1 =>
    rmatch ignorecase r1 s c (fun s1 c1 => k s1 ((i, consumed s s1) :: c1))
  | Empty => k s c
  end.

(** A match object: the captured groups. *)
Record match_obj := MatchObj { m_groups : caps }.

Fixpoint lookup (i : nat) (c : caps) : option pystr :=
  match c with
  | [] => None
  | (j, w) :: c' => if (j =? i)%nat then Some w else lookup i c'
  end.

(** [m.group(i)]: [None] for a group that took no part in the match. *)
Definition group (m : match_obj) (i : nat) : option pystr :=
  lookup i (m_groups m).

Definition match_here (ignorecase : bool) (r : regex) (s : pystr)
  : option match_obj :=
  match rmatch ignorecase r s [] (fun _ c => Some c) with
  | Some c => Some (MatchObj c)
  | None => None
  end.

(** [re.search(pat, text, flags)]: the match at the leftmost start. *)
Fixpoint search (ignorecase : bool) (r : regex) (s : pystr)
  : option match_obj :=
  match match_here ignorecase r s with
  | Some m => Some m
  | None =>
    match s with
    | [] => None
    | _ :: s' => search ignorecase r s'
    end
  end.

End Re.

(* ================================================================= *)
(** * [parse_price_any] *)

Module Price.

Import Re.

Definition digit : regex := InSet [SRange (ch "0") (ch "9")].
Definition digit_or_comma : regex :=
  InSet [SRange (ch "0") (ch "9"); SChar (ch ",")].

(** [[0-9][0-9,]*(?:\.[0-9]{2})?] *)
Definition amount_dec : regex :=
  Seq digit (Seq (Star digit_or_comma) (Opt (Seq (Lit (ch ".")) (Times 2 digit)))).

(** [[0-9][0-9,]*] *)
Definition amount_int : regex := Seq digit (Star digit_or_comma).

(** [(marker)\s*(amount)] *)
Definition price_pattern (marker amount : regex) : regex :=
  Seq (Group 1 marker) (Seq (Star Space) (Group 2 amount)).

(** [USD|US\s?\$|\$] *)
Definition marker_USD : regex :=
  Alt (word (py "USD"))
      (Alt (Seq (word (py "US")) (Seq (Opt Space) (Lit (ch "$"))))
           (Lit (ch "$"))).
Definition marker_EUR : regex := Alt (word (py "EUR")) (Lit (ch "€")).
Definition marker_GBP : regex := Alt (word (py "GBP")) (Lit (ch "£")).
Definition marker_CAD : regex := Alt (word (py "CAD")) (word (py "C$")).
Definition marker_AUD : regex := Alt (word (py "AUD")) (word (py "A$")).
Definition marker_JPY : regex := Alt (word (py "JPY")) (Lit (ch "¥")).

Definition USD := py "USD".
Definition EUR := py "EUR".
Definition GBP := py "GBP".
Definition CAD := py "CAD".
Definition AUD := py "AUD".
Definition JPY := py "JPY".

(** The ordered list of patterns. *)
Definition patterns : list (regex * pystr) :=
  [ (price_pattern marker_USD amount_dec, USD);
    (price_pattern marker_EUR amount_dec, EUR);
    (price_pattern marker_GBP amount_dec, GBP);
    (price_pattern marker_CAD amount_dec, CAD);
    (price_pattern marker_AUD amount_dec, AUD);
    (price_pattern marker_JPY amount_int, JPY) ].

(** The value under ["amount"]: a float, or the string itself in the
    [except ValueError] branch. *)
Inductive amount :=
| AmtFloat (f : PyFloat.float)
| AmtStr (s : pystr).

Record price := Price { currency : pystr; amount_of : amount }.

Definition IGNORECASE := true.

(** The [for pat, cur in patterns] loop. *)
Fixpoint first_match (ps : list (regex * pystr)) (price_text : pystr)
  : result (option price) :=
  match ps with
  | [] => Return None
  | (pat, cur) :: ps' =>
    match search IGNORECASE pat price_text with
    | Some m =>
      match group m 2 with
      | None =>
        Raise (AttributeError
                 (py "'NoneType' object has no attribute 'replace'"))
      | Some g =>
        let amt := remove_char (ch ",") g in
        match PyFloat.of_str amt with
        | Return f => Return (Some (Price cur (AmtFloat f)))
        | Raise e =>
          if exn_is e (py "ValueError")
          then Return (Some (Price cur (AmtStr amt)))
          else Raise e
        end
      end
    | None => first_match ps' price_text
    end
  end.

Definition parse_price_any (price_text : pystr) : result (option price) :=
  if negb (truthy price_text) then Return None
  else first_match patterns price_text.

End Price.


(* ================================================================= *)
(** * The two output schemas, as types *)

Module Schema.

(** A JSON number as [json.loads] gives it: an [int] or a [float]. *)
Inductive number :=
| NInt (z : Z)
| NFloat (f : PyFloat.float).

(** [float(x)] *)
Definition to_float (x : number) : result PyFloat.float :=
  match x with
  | NInt z => PyFloat.of_int z
  | NFloat f => Return f
  end.

Record attributes := Attributes {
  primary_color : pystr;
  material : pystr;
  metal_finish : pystr;
  closure : pystr;
  notable_markings : pystr }.

Record price_range := PriceRange { low : number; high : number }.

(** [IDENT_SCHEMA_FORMAT]: every property is required and none may be
    added. *)
Record ident := Ident {
  brand : pystr;
  model : pystr;
  category : pystr;
  aliases : list pystr;
  confidence : number;
  attributes_of : attributes;
  typical_price_range_usd : price_range;
  estimated_market_value_usd : number;
  suggested_queries : list pystr;
  rationale : pystr }.

(** An item of ["results"] in [LISTINGS_SCHEMA_FORMAT]. *)
Record listing := Listing {
  title : pystr;
  url : pystr;
  source : pystr;
  price_text : pystr;
  date_text : pystr;
  notes : pystr }.

(** [LISTINGS_SCHEMA_FORMAT] *)
Record listings_data := ListingsData {
  data_queries_used : list pystr;
  data_results : list listing }.

(** A listing after [r["parsed_price"] = ...]. *)
Record parsed_listing := ParsedListing {
  listing_of : listing;
  parsed_price : option Price.price }.

(** What [search_listings] returns: the decoded data with parsed
    prices, or the degraded object, which alone has ["error"]. *)
Record listings := Listings {
  queries_used : list pystr;
  results : list parsed_listing;
  error : option pystr }.

End Schema.

(* ================================================================= *)
(** * [api/pipeline.py] *)

Module Pipeline.

Import Schema.

(** ** [bytes_to_data_url] *)

Definition b64_char (n : N) : char :=
  (if n <? 26 then 65 + n
   else if n <? 52 then 97 + (n - 26)
   else if n <? 62 then 48 + (n - 52)
   else if n =? 62 then 43 else 47)%N.

(** [base64.b64encode(bs).decode("utf-8")], a byte being its value. *)
Fixpoint b64encode (bs : list N) : pystr :=
  match bs with
  | [] => []
  | [a] =>
    let n := (a * 65536)%N in
    [b64_char (n / 262144); b64_char ((n / 4096) mod 64); ch "="; ch "="]%N
  | [a; b] =>
    let n := (a * 65536 + b * 256)%N in
    [b64_char (n / 262144); b64_char ((n / 4096) mod 64);
     b64_char ((n / 64) mod 64); ch "="]%N
  | a :: b :: c :: rest =>
    let n := (a * 65536 + b * 256 + c)%N in
    [b64_char (n / 262144); b64_char ((n / 4096) mod 64);
     b64_char ((n / 64) mod 64); b64_char (n mod 64)]%N ++ b64encode rest
  end.

Definition bytes_to_data_url (image_bytes : list N) (mime : pystr) : pystr :=
  let b64 := b64encode image_bytes in
  py "data:" ++ mime ++ py ";base64," ++ b64.

(** ** The remote client *)

Inductive content_block :=
| InputText (text : pystr)
| InputImage (image_url : pystr).

Inductive format := IDENT_SCHEMA_FORMAT | LISTINGS_SCHEMA_FORMAT.

(** The arguments of one [client.responses.create] call, whose input is
    a single user message. *)
Record request := Request {
  req_model : pystr;
  req_content : list content_block;
  req_tools : list pystr;
  req_format : format }.

(** What a request does to the outside. *)
Inductive event :=
| ReadBody                      (* [await image.read()] *)
| Create (req : request).       (* [client.responses.create(...)] *)

Definition trace := list event.

(** Computations that may raise and that add to the trace. *)
Definition M (A : Type) : Type := trace -> result A * trace.

Definition ret {A} (a : A) : M A := fun t => (Return a, t).

Definition raise {A} (e : exn) : M A := fun t => (Raise e, t).

Definition bind {A B} (m : M A) (f : A -> M B) : M B :=
  fun t =>
    match m t with
    | (Return a, t1) => f a t1
    | (Raise e, t1) => (Raise e, t1)
    end.

(** A pure step that may raise. *)
Definition lift {A} (r : result A) : M A := fun t => (r, t).

(** [try: body / except Exception as e: handler(e)] *)
Definition try_except {A} (body : M A) (handler : exn -> M A) : M A :=
  fun t =>
    match body t with
    | (Return a, t1) => (Return a, t1)
    | (Raise e, t1) => handler e t1
    end.

Notation "x <- m ;; k" := (bind m (fun x => k))
  (at level 61, m at next level, right associativity).

Fixpoint for_each {A B} (f : A -> M B) (l : list A) : M (list B) :=
  match l with
  | [] => ret []
  | a :: l' => b <- f a ;; bs <- for_each f l' ;; ret (b :: bs)
  end.

(** [LuxuryPipeline]: the two model names; the client is the oracle
    below. *)
Record pipeline := LuxuryPipeline {
  model_ident : pystr;
  model_search : pystr }.

(** [__init__], [getenv] being the value of [OPENAI_API_KEY]. *)
Definition init (api_key getenv : option pystr)
           (model_ident model_search : pystr) : result pipeline :=
  let key :=
    match api_key with
    | Some k => if truthy k then api_key else getenv
    | None => getenv
    end in
  match key with
  | Some (_ :: _) => Return (LuxuryPipeline model_ident model_search)
  | _ =>
    Raise (RuntimeError
             (py "Missing OPENAI_API_KEY (set env var or enter in the app)."))
  end.

Definition default_model : pystr := py "gpt-4.1-mini".

Definition ident_instructions : pystr :=
  py "You are a luxury goods identification assistant." ++ [newline]
  ++ py "Use the images, the user description, and the classifier hint (may be wrong)."
  ++ [newline]
  ++ py "Return structured fields for brand/model/category, aliases, attributes, confidence, price range, market value,"
  ++ [newline]
  ++ py "suggested search queries, and a short rationale." ++ [newline]
  ++ py "Rules: do not fabricate stamps/serials; if not visible, say 'not visible'.".

(** ** Query construction (the head of [search_listings]) *)

Definition quoted (s : pystr) : pystr := [dquote] ++ s ++ [dquote].

Definition clean_brand (i : ident) : pystr := strip (py_or (brand i) []).
Definition clean_model (i : ident) : pystr := strip (py_or (model i) []).
Definition clean_category (i : ident) : pystr :=
  strip (py_or (category i) []).
Definition clean_aliases (i : ident) : list pystr := py_or (aliases i) [].

Definition suggested (i : ident) : list pystr :=
  firstn 8 (py_or (suggested_queries i) []).

Definition fallbacks (i : ident) : list pystr :=
  [ clean_brand i ++ py " " ++ quoted (clean_model i) ++ py " price";
    clean_brand i ++ py " " ++ quoted (clean_model i) ++ py " "
      ++ clean_category i ++ py " listing" ]
  ++ match clean_aliases i with
     | a0 :: _ =>
       [ clean_brand i ++ py " " ++ quoted a0 ++ py " "
           ++ clean_category i ++ py " listing" ]
     | [] => []
     end.

(** [[q for q in (suggested + fallbacks) if q][:10]] *)
Definition queries (i : ident) : list pystr :=
  firstn 10 (filter truthy (suggested i ++ fallbacks i)).

Section Client.

(** [client.responses.create(...).output_text]: the text of the answer,
    or the exception raised, which may depend on what happened before. *)
Variable responses_create : trace -> request -> result pystr.

(** [json.loads] on the answer to either call, read at its schema. *)
Variable json_loads_ident : pystr -> result ident.
Variable json_loads_listings : pystr -> result listings_data.

(** [str] of a list of strings, as an f-string prints it. *)
Variable repr_list : list pystr -> pystr.

Definition create (req : request) : M pystr :=
  fun t => (responses_create t req, t ++ [Create req]).

Definition identify (self : pipeline) (image_data_urls : list pystr)
           (description_text classifier_hint : pystr) : M ident :=
  let content :=
    [InputText ident_instructions]
    ++ (if truthy (strip description_text)
        then [InputText (py "User description:" ++ [newline]
                         ++ strip description_text)]
        else [])
    ++ (if truthy (strip classifier_hint)
        then [InputText (py "Classifier hint:" ++ [newline]
                         ++ strip classifier_hint)]
        else [])
    ++ map InputImage image_data_urls in
  output_text <- create (Request (model_ident self) content []
                                 IDENT_SCHEMA_FORMAT) ;;
  lift (json_loads_ident output_text).

Definition search_prompt (i : ident) (max_results : Z) : pystr :=
  py "You are a research agent." ++ [newline]
  ++ py "Use web search to find comparable listings/sales for the identified luxury product."
  ++ [newline]
  ++ py "Return up to 12 results (or fewer if low quality) with title, url, source, price_text, date_text if visible, notes."
  ++ [newline]
  ++ py "Rules:" ++ [newline]
  ++ py "- Prefer official brand/retailer pages and major resale marketplaces."
  ++ [newline]
  ++ py "- Avoid generic blogs unless they include an actual listing with price."
  ++ [newline]
  ++ py "- Do not invent prices or dates; if missing, leave empty and explain in notes."
  ++ [newline]
  ++ py "- Target up to " ++ str_of_int max_results ++ py " results."
  ++ [newline; newline]
  ++ py "Item:" ++ [newline]
  ++ py "Brand: " ++ clean_brand i ++ [newline]
  ++ py "Model: " ++ clean_model i ++ [newline]
  ++ py "Category: " ++ clean_category i ++ [newline]
  ++ py "Aliases: " ++ repr_list (clean_aliases i) ++ [newline; newline]
  ++ py "Queries:" ++ [newline] ++ repr_list (queries i).

(** The body of the [for r in data.get("results", [])] loop. *)
Definition parse_listing (r : listing) : M parsed_listing :=
  p <- lift (Price.parse_price_any (price_text r)) ;;
  ret (ParsedListing r p).

(** What the [except] clause returns. *)
Definition degraded (i : ident) (e : exn) : listings :=
  Listings (queries i) []
           (Some (py "web_search unavailable or failed: "
                  ++ exn_type e ++ py ": " ++ exn_msg e)).

(** The arguments of the listings call. *)
Definition search_request (self : pipeline) (i : ident) (max_results : Z)
  : request :=
  let prompt := search_prompt i max_results in
  Request (model_search self) [InputText prompt] [py "web_search"]
          LISTINGS_SCHEMA_FORMAT.

Definition search_listings (self : pipeline) (i : ident) (max_results : Z)
  : M listings :=
  try_except
    (output_text <- create (search_request self i max_results) ;;
     data <- lift (json_loads_listings output_text) ;;
     rs <- for_each parse_listing (data_results data) ;;
     ret (Listings (data_queries_used data) rs None))
    (fun e => ret (degraded i e)).

(** The listings call fails with [e]: the client raises it, or the
    decoder does on the text the client returned. *)
Definition listings_call_fails (self : pipeline) (i : ident)
           (max_results : Z) (t : trace) (e : exn) : Prop :=
  responses_create t (search_request self i max_results) = Raise e
  \/ exists output_text,
      responses_create t (search_request self i max_results)
      = Return output_text
      /\ json_loads_listings output_text = Raise e.

(** The object [run] returns. *)
Record run_output := RunOutput {
  identification : ident;
  listings_of : listings }.

Definition run (self : pipeline) (image_data_urls : list pystr)
           (description_text classifier_hint : pystr) (max_results : Z)
  : M run_output :=
  i <- identify self image_data_urls description_text classifier_hint ;;
  l <- search_listings self i max_results ;;
  ret (RunOutput i l).

End Client.

End Pipeline.

(* ================================================================= *)
(** * [api/main.py] *)

Module Api.

Import Schema Pipeline.

(** The uploaded file: its declared content type, if any, and what
    [read()] gives. *)
Record upload_file := UploadFile {
  content_type : option pystr;
  file_bytes : list N }.

(** An item of ["similar_listings"]. *)
Record similar_listing := SimilarListing {
  sl_id : pystr;
  sl_title : pystr;
  sl_price_text : pystr;
  sl_url : pystr;
  sl_source : pystr }.

(** The object [predict] returns. *)
Record response := Response {
  predicted_price : PyFloat.float;
  resp_currency : pystr;
  resp_confidence : PyFloat.float;
  resp_brand : pystr;
  resp_model : pystr;
  resp_category : pystr;
  similar_listings : list similar_listing }.

(** How a request ends: the returned object, an [HTTPException] raised
    by the handler, or any other exception, which nothing catches. *)
Inductive outcome :=
| Ok (r : response)
| HTTPException (status_code : Z) (detail : pystr)
| Unhandled (e : exn).

(** [pipe = LuxuryPipeline()], the key being set. *)
Definition pipe : pipeline := LuxuryPipeline default_model default_model.

(** [enumerate(l)] *)
Definition enumerate {A} (l : list A) : list (nat * A) :=
  combine (seq 0 (length l)) l.

Definition shape_listing (ir : nat * parsed_listing) : similar_listing :=
  let (i, r) := ir in
  SimilarListing (str_of_nat i)
                 (title (listing_of r))
                 (price_text (listing_of r))
                 (url (listing_of r))
                 (source (listing_of r)).

(** The returned dictionary; its two [float(...)] calls may raise. *)
Definition shape_response (out : run_output) : result response :=
  let ident := identification out in
  let listings := results (listings_of out) in
  match to_float (estimated_market_value_usd ident) with
  | Raise e => Raise e
  | Return pp =>
    match to_float (confidence ident) with
    | Raise e => Raise e
    | Return cf =>
      Return (Response pp (py "USD") cf
                       (brand ident) (model ident) (category ident)
                       (map shape_listing (enumerate listings)))
    end
  end.

(** [image.content_type or ...] reads [None] as falsy. *)
Definition or_none (x : option pystr) : pystr :=
  match x with Some s => s | None => [] end.

(** [not image.content_type or not
    image.content_type.startswith("image/")] *)
Definition not_an_image (image : upload_file) : bool :=
  negb (truthy (or_none (content_type image)))
  || negb (startswith (or_none (content_type image)) (py "image/")).

(** The data URL made of the bytes read and of the declared type. *)
Definition data_url_of (image : upload_file) : pystr :=
  let image_bytes := file_bytes image in
  let mime := py_or (or_none (content_type image)) (py "image/png") in
  bytes_to_data_url image_bytes mime.

Section Client.

Variable responses_create : trace -> request -> result pystr.
Variable json_loads_ident : pystr -> result ident.
Variable json_loads_listings : pystr -> result listings_data.
Variable repr_list : list pystr -> pystr.

Definition predict (image : upload_file) (t : trace) : outcome * trace :=
  if not_an_image image
  then (HTTPException 400 (py "Upload an image file."), t)
  else
    let t1 := t ++ [ReadBody] in
    match run responses_create json_loads_ident json_loads_listings
              repr_list pipe [data_url_of image] [] [] 10 t1 with
    | (Raise e, t2) => (Unhandled e, t2)
    | (Return out, t2) =>
      match shape_response out with
      | Raise e => (Unhandled e, t2)
      | Return r => (Ok r, t2)
      end
    end.

End Client.

End Api.

(* ================================================================= *)
(** * A scripted client, for running the model *)

Module Scenario.

Import Schema Pipeline Api.

Definition chanel : ident :=
  Ident (py "Chanel") (py "Classic Flap") (py "handbag") [py "2.55"]
        (NFloat (PyFloat.of_decimal false 82 (-2)))
        (Attributes (py "black") (py "lambskin") (py "gold")
                    (py "turn-lock") (py "not visible"))
        (PriceRange (NInt 4000) (NInt 6000))
        (NInt 4800)
        [py "Chanel Classic Flap price"; []; py "Chanel 2.55 resale"]
        (py "Quilted flap bag with interlocking CC turn-lock.").

Definition listing_usd : listing :=
  Listing (py "Chanel Classic Flap Medium") (py "https://example.com/a")
          (py "Example Resale") (py "$4,750.00") (py "2024") [].

Definition listing_eur : listing :=
  Listing (py "Chanel Timeless") (py "https://example.com/b")
          (py "Exemple") (py "€4.500,00") [] [].

Definition listing_unpriced : listing :=
  Listing (py "Chanel Flap") (py "https://example.com/c")
          (py "Example") (py "price on request") [] [].

Definition found : listings_data :=
  ListingsData [py "Chanel Classic Flap price"]
               [listing_usd; listing_eur; listing_unpriced].

Definition connection_error : exn :=
  Exc (py "APIConnectionError") (py "Connection error.").

(** Both calls answer. *)
Definition client_up (t : trace) (req : request) : result pystr :=
  match req_format req with
  | IDENT_SCHEMA_FORMAT => Return (py "identification")
  | LISTINGS_SCHEMA_FORMAT => Return (py "listings")
  end.

(** The identification answers, the web search is down. *)
Definition client_search_down (t : trace) (req : request) : result pystr :=
  match req_format req with
  | IDENT_SCHEMA_FORMAT => Return (py "identification")
  | LISTINGS_SCHEMA_FORMAT => Raise connection_error
  end.

(** Nothing answers. *)
Definition client_down (t : trace) (req : request) : result pystr :=
  Raise connection_error.

Definition loads_ident (s : pystr) : result ident := Return chanel.

Definition loads_listings (s : pystr) : result listings_data := Return found.

(** A list of strings without quotes or escapes, as Python prints it. *)
Definition repr_plain (l : list pystr) : pystr :=
  py "[" ++ concat (map (fun q => py "'" ++ q ++ py "', ") l) ++ py "]".

Definition jpeg : upload_file :=
  UploadFile (Some (py "image/jpeg")) [255; 216; 255; 224]%N.

Definition text_file : upload_file :=
  UploadFile (Some (py "text/plain")) [104; 105]%N.

Definition untyped_file : upload_file := UploadFile None [104; 105]%N.

End Scenario.

(* ================================================================= *)
(** * The requests, said apart from the calls *)

Module PipelineSpec.

Import Schema Pipeline Api.

(** The image URLs of a message, in order. *)
Fixpoint images_of (content : list content_block) : list pystr :=
  match content with
  | [] => []
  | InputImage u :: content' => u :: images_of content'
  | InputText _ :: content' => images_of content'
  end.

(** The texts of a message, in order. *)
Fixpoint texts_of (content : list content_block) : list pystr :=
  match content with
  | [] => []
  | InputText s :: content' => s :: texts_of content'
  | InputImage _ :: content' => texts_of content'
  end.

(** The [content] list that [identify] builds. *)
Definition ident_content (image_data_urls : list pystr)
           (description_text classifier_hint : pystr) : list content_block :=
  [InputText ident_instructions]
  ++ (if truthy (strip description_text)
      then [InputText (py "User description:" ++ [newline]
                       ++ strip description_text)]
      else [])
  ++ (if truthy (strip classifier_hint)
      then [InputText (py "Classifier hint:" ++ [newline]
                       ++ strip classifier_hint)]
      else [])
  ++ map InputImage image_data_urls.

(** The arguments of the identification call. *)
Definition ident_request (self : pipeline) (image_data_urls : list pystr)
           (description_text classifier_hint : pystr) : request :=
  Request (model_ident self)
          (ident_content image_data_urls description_text classifier_hint)
          [] IDENT_SCHEMA_FORMAT.

(** The characters [b64encode] writes. *)
Definition is_b64_char (x : char) : bool :=
  (((65 <=? x) && (x <=? 90)) || ((97 <=? x) && (x <=? 122))
   || ((48 <=? x) && (x <=? 57)) || (x =? 43) || (x =? 47) || (x =? 61))%N.

(** The value of a base64 character. *)
Definition b64_index (x : char) : N :=
  (if (65 <=? x) && (x <=? 90) then x - 65
   else if (97 <=? x) && (x <=? 122) then x - 71
   else if (48 <=? x) && (x <=? 57) then x + 4
   else if x =? 43 then 62 else 63)%N.

(** Reading base64 text back: four characters give three bytes, fewer
    where the text is padded. *)
Fixpoint b64decode (s : pystr) : list N :=
  match s with
  | c1 :: c2 :: c3 :: c4 :: rest =>
    let n := (b64_index c1 * 262144 + b64_index c2 * 4096)%N in
    if (c3 =? 61)%N then [(n / 65536)%N]
    else
      let n := (n + b64_index c3 * 64)%N in
      if (c4 =? 61)%N then [(n / 65536)%N; ((n / 256) mod 256)%N]
      else
        let n := (n + b64_index c4)%N in
        [(n / 65536)%N; ((n / 256) mod 256)%N; (n mod 256)%N]
          ++ b64decode rest
  | _ => []
  end.

(** Bytes. *)
Definition is_byte (b : N) : bool := (b <? 256)%N.

End PipelineSpec.

(* ================================================================= *)
(** * What a pattern matches *)

Module ReSem.

Import Re.

(** [Sem ic r w c c1]: pattern [r] matches exactly the text [w], and
    the groups [c] captured before become [c1].  No priority among the
    ways to match is expressed here. *)
Inductive Sem (ic : bool) : regex -> pystr -> caps -> caps -> Prop :=
| SemLit p x c :
    lit_test ic p x = true -> Sem ic (Lit p) [x] c c
| SemIn items x c :
    set_test ic items x = true -> Sem ic (InSet items) [x] c c
| SemSpace x c :
    is_space x = true -> Sem ic Space [x] c c
| SemSeq r1 r2 w1 w2 c c1 c2 :
    Sem ic r1 w1 c c1 -> Sem ic r2 w2 c1 c2 ->
    Sem ic (Seq r1 r2) (w1 ++ w2) c c2
| SemAltL r1 r2 w c c1 :
    Sem ic r1 w c c1 -> Sem ic (Alt r1 r2) w c c1
| SemAltR r1 r2 w c c1 :
    Sem ic r2 w c c1 -> Sem ic (Alt r1 r2) w c c1
| SemStarNil r c :
    Sem ic (Star r) [] c c
| SemStarCons r w1 w2 c c1 c2 :
    w1 <> [] -> Sem ic r w1 c c1 -> Sem ic (Star r) w2 c1 c2 ->
    Sem ic (Star r) (w1 ++ w2) c c2
| SemOptNone r c :
    Sem ic (Opt r) [] c c
| SemOptSome r w c c1 :
    Sem ic r w c c1 -> Sem ic (Opt r) w c c1
| SemTimesO r c :
    Sem ic (Times 0 r) [] c c
| SemTimesS n r w1 w2 c c1 c2 :
    Sem ic r w1 c c1 -> Sem ic (Times n r) w2 c1 c2 ->
    Sem ic (Times (S n) r) (w1 ++ w2) c c2
| SemGroup i r w c c1 :
    Sem ic r w c c1 -> Sem ic (Group i r) w c ((i, w) :: c1)
| SemEmpty c :
    Sem ic Empty [] c c.

(** Patterns without a capturing group. *)
Fixpoint group_free (r : regex) : bool :=
  match r with
  | Lit _ | InSet _ | Space | Empty => true
  | Seq r1 r2 | Alt r1 r2 => group_free r1 && group_free r2
  | Star r1 | Opt r1 | Times _ r1 => group_free r1
  | Group _ _ => false
  end.

(** [text] holds [w] somewhere. *)
Definition occurs (w text : pystr) : Prop :=
  exists pre post, text = pre ++ w ++ post.

End ReSem.

(* ================================================================= *)
(** * Facts about the matcher *)

Unset Implicit Arguments.

Module ReFacts.

Import Re ReSem.

Lemma consumed_app (w s1 : pystr) : consumed (w ++ s1) s1 = w.
Proof.
  unfold consumed. rewrite length_app.
  replace (length w + length s1 - length s1) with (length w) by lia.
  rewrite firstn_app, Nat.sub_diag, firstn_all. simpl. apply app_nil_r.
Qed.

Lemma one_char_sound test s c k m :
  one_char test s c k = Some m ->
  exists x s1, s = x :: s1 /\ test x = true /\ k s1 c = Some m.
Proof.
  destruct s as [|x s1]; simpl; [discriminate|].
  destruct (test x) eqn:E; [|discriminate].
  intros H. exists x, s1. auto.
Qed.

Section Soundness.

Variable ic : bool.

Lemma star_loop_sound r
      (IH : forall s c k m, rmatch ic r s c k = Some m ->
            exists w s1 c1, s = w ++ s1 /\ Sem ic r w c c1 /\ k s1 c1 = Some m) :
  forall n s c k m,
    star_loop (rmatch ic r) n s c k = Some m ->
    exists w s1 c1, s = w ++ s1 /\ Sem ic (Star r) w c c1 /\ k s1 c1 = Some m.
Proof.
  induction n as [|n IHn]; intros s c k m H; simpl in H.
  - exists [], s, c. repeat split; auto. constructor.
  - destruct (rmatch ic r s c _) as [m'|] eqn:E.
    + inversion H; subst m'. clear H.
      apply IH in E. destruct E as (w1 & s1 & c1 & Hs & Hsem & Hk).
      destruct (length s1 <? length s)%nat eqn:Hlt; [|discriminate].
      apply IHn in Hk. destruct Hk as (w2 & s2 & c2 & Hs1 & Hsem2 & Hk).
      exists (w1 ++ w2), s2, c2. repeat split; auto.
      * subst. now rewrite app_assoc.
      * apply SemStarCons with (c1 := c1); auto.
        intros ->. subst s. simpl in Hlt.
        apply Nat.ltb_lt in Hlt. lia.
    + exists [], s, c. repeat split; auto. constructor.
Qed.

Lemma times_loop_sound r
      (IH : forall s c k m, rmatch ic r s c k = Some m ->
            exists w s1 c1, s = w ++ s1 /\ Sem ic r w c c1 /\ k s1 c1 = Some m) :
  forall n s c k m,
    times_loop (rmatch ic r) n s c k = Some m ->
    exists w s1 c1,
      s = w ++ s1 /\ Sem ic (Times n r) w c c1 /\ k s1 c1 = Some m.
Proof.
  induction n as [|n IHn]; intros s c k m H; simpl in H.
  - exists [], s, c. repeat split; auto. constructor.
  - apply IH in H. destruct H as (w1 & s1 & c1 & Hs & Hsem & Hk).
    apply IHn in Hk. destruct Hk as (w2 & s2 & c2 & Hs1 & Hsem2 & Hk).
    exists (w1 ++ w2), s2, c2. repeat split; auto.
    + subst. now rewrite app_assoc.
    + apply SemTimesS with (c1 := c1); auto.
Qed.

(** Whatever the matcher finds is a match: the text splits into a word
    of the pattern and a rest that the continuation accepts. *)
Lemma rmatch_sound r :
  forall s c k m,
    rmatch ic r s c k = Some m ->
    exists w s1 c1, s = w ++ s1 /\ Sem ic r w c c1 /\ k s1 c1 = Some m.
Proof.
  induction r as [p|items| |r1 IH1 r2 IH2|r1 IH1 r2 IH2|r IH|r IH|n r IH|i r IH| ];
    intros s c k m H; simpl in H.
  - apply one_char_sound in H. destruct H as (x & s1 & -> & Ht & Hk).
    exists [x], s1, c. repeat split; auto. now constructor.
  - apply one_char_sound in H. destruct H as (x & s1 & -> & Ht & Hk).
    exists [x], s1, c. repeat split; auto. now constructor.
  - apply one_char_sound in H. destruct H as (x & s1 & -> & Ht & Hk).
    exists [x], s1, c. repeat split; auto. now constructor.
  - apply IH1 in H. destruct H as (w1 & s1 & c1 & -> & Hsem1 & Hk).
    apply IH2 in Hk. destruct Hk as (w2 & s2 & c2 & -> & Hsem2 & Hk).
    exists (w1 ++ w2), s2, c2. repeat split; auto.
    + now rewrite app_assoc.
    + apply SemSeq with (c1 := c1); auto.
  - destruct (rmatch ic r1 s c k) as [m'|] eqn:E.
    + inversion H; subst m'. apply IH1 in E.
      destruct E as (w & s1 & c1 & Hs & Hsem & Hk).
      exists w, s1, c1. repeat split; auto. now apply SemAltL.
    + apply IH2 in H. destruct H as (w & s1 & c1 & Hs & Hsem & Hk).
      exists w, s1, c1. repeat split; auto. now apply SemAltR.
  - eapply star_loop_sound; eauto.
  - destruct (rmatch ic r s c k) as [m'|] eqn:E.
    + inversion H; subst m'. apply IH in E.
      destruct E as (w & s1 & c1 & Hs & Hsem & Hk).
      exists w, s1, c1. repeat split; auto. now apply SemOptSome.
    + exists [], s, c. repeat split; auto. constructor.
  - eapply times_loop_sound; eauto.
  - apply IH in H. destruct H as (w & s1 & c1 & -> & Hsem & Hk).
    rewrite consumed_app in Hk.
    exists w, s1, ((i, w) :: c1). repeat split; auto. now constructor.
  - exists [], s, c. repeat split; auto. constructor.
Qed.

End Soundness.

Section Completeness.

Variable ic : bool.

Lemma star_loop_complete r
      (IH : forall w c c1, Sem ic r w c c1 ->
            forall s1 k c0, (forall c', k s1 c' <> None) ->
                            rmatch ic r (w ++ s1) c0 k <> None) :
  forall w c c1,
    Sem ic (Star r) w c c1 ->
    forall n s1 k c0,
      length (w ++ s1) <= n ->
      (forall c', k s1 c' <> None) ->
      star_loop (rmatch ic r) n (w ++ s1) c0 k <> None.
Proof.
  intros w c c1 H. remember (Star r) as sr eqn:Esr.
  induction H; try discriminate; inversion Esr; subst; clear Esr;
    intros n' s1 k c0 Hn Hk.
  - destruct n'; simpl; [apply Hk|].
    destruct (rmatch ic r s1 c0 _); [discriminate|apply Hk].
  - destruct n' as [|n'].
    + exfalso. rewrite !length_app in Hn.
      destruct w1; [congruence|simpl in Hn; lia].
    + simpl.
      destruct (rmatch ic r ((w1 ++ w2) ++ s1) c0 _) as [m|] eqn:E;
        [discriminate|].
      exfalso. revert E. rewrite <- app_assoc.
      apply (IH _ _ _ H0). intros c'.
      assert (Hlt : (length (w2 ++ s1) <? length (w1 ++ w2 ++ s1))%nat = true).
      { apply Nat.ltb_lt. rewrite (length_app w1).
        destruct w1; [congruence|simpl; lia]. }
      rewrite Hlt. apply IHSem2; auto.
      rewrite <- app_assoc, (length_app w1) in Hn.
      destruct w1; [congruence|simpl in Hn; lia].
Qed.

Lemma times_loop_complete r
      (IH : forall w c c1, Sem ic r w c c1 ->
            forall s1 k c0, (forall c', k s1 c' <> None) ->
                            rmatch ic r (w ++ s1) c0 k <> None) :
  forall n w c c1,
    Sem ic (Times n r) w c c1 ->
    forall s1 k c0,
      (forall c', k s1 c' <> None) ->
      times_loop (rmatch ic r) n (w ++ s1) c0 k <> None.
Proof.
  induction n as [|n IHn]; intros w c c1 H s1 k c0 Hk; inversion H; subst.
  - simpl. apply Hk.
  - simpl. rewrite <- app_assoc. eapply IH; eauto.
Qed.

(** Whatever matches is found, by this or by a preferred way: if some
    word of the pattern starts the text and the continuation accepts
    what follows it, the matcher does not fail. *)
Lemma rmatch_complete r :
  forall w c c1,
    Sem ic r w c c1 ->
    forall s1 k c0,
      (forall c', k s1 c' <> None) ->
      rmatch ic r (w ++ s1) c0 k <> None.
Proof.
  induction r as [p|items| |r1 IH1 r2 IH2|r1 IH1 r2 IH2|r IH|r IH|n r IH|i r IH| ];
    intros w c c1 H s1 k c0 Hk.
  - inversion H; subst; simpl. rewrite H1. apply Hk.
  - inversion H; subst; simpl. rewrite H1. apply Hk.
  - inversion H; subst; simpl. rewrite H0. apply Hk.
  - inversion H; subst; simpl. rewrite <- app_assoc. eapply IH1; eauto.
  - simpl. destruct (rmatch ic r1 (w ++ s1) c0 k) eqn:E; [discriminate|].
    inversion H; subst.
    + exfalso. revert E. eapply IH1; eauto.
    + eapply IH2; eauto.
  - simpl. eapply star_loop_complete; eauto.
  - simpl. destruct (rmatch ic r (w ++ s1) c0 k) eqn:E; [discriminate|].
    inversion H; subst.
    + apply Hk.
    + exfalso. revert E. eapply IH; eauto.
  - simpl. eapply times_loop_complete; eauto.
  - inversion H; subst; simpl. eapply IH; eauto.
  - inversion H; subst; simpl. apply Hk.
Qed.

End Completeness.

Lemma match_here_sound ic r s m :
  match_here ic r s = Some m ->
  exists w s1, s = w ++ s1 /\ Sem ic r w [] (m_groups m).
Proof.
  unfold match_here.
  destruct (rmatch ic r s [] _) as [c|] eqn:E; [|discriminate].
  intros H. inversion H; subst m. simpl.
  apply rmatch_sound in E. destruct E as (w & s1 & c1 & Hs & Hsem & Hk).
  inversion Hk; subst c1. eauto.
Qed.

(** A match found by [search] lies somewhere in the text. *)
Lemma search_sound ic r :
  forall s m,
    search ic r s = Some m ->
    exists pre w post, s = pre ++ w ++ post /\ Sem ic r w [] (m_groups m).
Proof.
  induction s as [|x s IH]; intros m H; simpl in H.
  - destruct (match_here ic r []) as [m'|] eqn:E; [|discriminate].
    inversion H; subst m'. apply match_here_sound in E.
    destruct E as (w & s1 & Hs & Hsem). exists [], w, s1. auto.
  - destruct (match_here ic r (x :: s)) as [m'|] eqn:E.
    + inversion H; subst m'. apply match_here_sound in E.
      destruct E as (w & s1 & Hs & Hsem). exists [], w, s1. auto.
    + apply IH in H. destruct H as (pre & w & post & -> & Hsem).
      exists (x :: pre), w, post. auto.
Qed.

(** A text that holds a word of the pattern is not missed. *)
Lemma search_complete ic r w c c1 :
  Sem ic r w c c1 ->
  forall pre post, search ic r (pre ++ w ++ post) <> None.
Proof.
  intros Hsem pre post.
  assert (Hhere : match_here ic r (w ++ post) <> None).
  { unfold match_here.
    destruct (rmatch ic r (w ++ post) [] _) eqn:E; [discriminate|].
    exfalso. revert E. eapply rmatch_complete; eauto. discriminate. }
  induction pre as [|x pre IH]; simpl.
  - destruct (w ++ post) eqn:E; simpl;
      destruct (match_here ic r _); try discriminate; auto.
  - destruct (match_here ic r (x :: pre ++ w ++ post)); [discriminate|auto].
Qed.

Lemma Sem_group_free ic r :
  group_free r = true ->
  forall w c c1, Sem ic r w c c1 -> c1 = c.
Proof.
  intros Hg w c c1 H.
  induction H; simpl in Hg; try discriminate; auto;
    try (apply andb_true_iff in Hg; destruct Hg as [Hg1 Hg2]); auto;
    transitivity c1; auto.
Qed.

(** Greedy repetition of a one-character pattern runs to the end of the
    longest run, when the rest of the pattern accepts what follows. *)
Lemma star_one_char_greedy body test
      (Hr : forall s c k, body s c k = one_char test s c k) :
  forall run rest c k m n,
    Forall (fun x => test x = true) run ->
    match rest with [] => True | y :: _ => test y = false end ->
    length (run ++ rest) <= n ->
    k rest c = Some m ->
    star_loop body n (run ++ rest) c k = Some m.
Proof.
  induction run as [|x run IH]; intros rest c k m n Hrun Hrest Hn Hk.
  - simpl. destruct n; simpl; auto.
    rewrite Hr. destruct rest as [|y rest]; simpl; [now rewrite Hk|].
    rewrite Hrest. now rewrite Hk.
  - inversion Hrun; subst. destruct n as [|n]; [simpl in Hn; lia|].
    simpl. rewrite Hr. simpl. rewrite H1.
    rewrite (proj2 (Nat.ltb_lt _ _) (Nat.lt_succ_diag_r _)).
    rewrite (IH rest c k m n); auto. simpl in Hn. lia.
Qed.

End ReFacts.

(* ================================================================= *)
(** * Markers and amounts, said without patterns *)

Module PriceSpec.

Import Re.

Definition is_digit_or_comma (x : char) : bool :=
  is_digit x || (x =? ch ",")%N.

(** The text a price pattern captures as its amount: a digit, then
    digits and commas, then possibly a dot and two digits. *)
Inductive amount_shape : pystr -> Prop :=
| AmountShape d body frac :
    is_digit d = true ->
    Forall (fun x => is_digit_or_comma x = true) body ->
    (frac = [] \/
     exists d1 d2, frac = [ch "."; d1; d2]
                   /\ is_digit d1 = true /\ is_digit d2 = true) ->
    amount_shape (d :: body ++ frac).

Definition is_dot (x : char) : bool := (x =? ch ".")%N.

(** The number a captured amount stands for: its digits, with two
    decimals when it has a dot. *)
Definition amount_float (am : pystr) : PyFloat.float :=
  PyFloat.of_decimal false
    (PyFloat.digits_value 0 (filter is_digit am))
    (if existsb is_dot am then (-2)%Z else 0%Z).

(** [w] starts [s], letters compared as [re.IGNORECASE] does. *)
Fixpoint ci_prefix (w s : pystr) : bool :=
  match w, s with
  | [], _ => true
  | p :: w', x :: s' => lit_eq_ignorecase p x && ci_prefix w' s'
  | _ :: _, [] => false
  end.

(** [mk] is [w] in some letter case. *)
Definition spells (w mk : pystr) : bool :=
  ci_prefix w mk && (length mk =? length w)%nat.

(** [w] occurs in [s] in some letter case. *)
Fixpoint contains_ci (w s : pystr) : bool :=
  ci_prefix w s
  || match s with
     | [] => false
     | _ :: s' => contains_ci w s'
     end.

(** The currency markers: codes and signs. *)
Definition marker_words : list pystr :=
  [ py "USD"; py "US$"; py "$"; py "EUR"; py "€"; py "GBP"; py "£";
    py "CAD"; py "C$"; py "AUD"; py "A$"; py "JPY"; py "¥" ].

Definition has_marker (text : pystr) : bool :=
  existsb (fun w => contains_ci w text) marker_words.

(** [text] holds the marker [mk] followed, after optional whitespace,
    by a digit. *)
Definition marked_amount_at (mk text : pystr) : Prop :=
  exists pre ws d post,
    text = pre ++ mk ++ ws ++ d :: post
    /\ Forall (fun x => is_space x = true) ws
    /\ is_digit d = true.

(** A dollar sign followed by an amount. *)
Definition dollar_amount (text : pystr) : Prop :=
  marked_amount_at (py "$") text.

(** The spellings of the USD and EUR markers; [US$] and [US $] end
    with the dollar sign. *)
Definition words_USD : list pystr := [py "USD"; py "$"].
Definition words_EUR : list pystr := [py "EUR"; py "€"].

(** [text] holds one of the markers [words], in some letter case,
    followed by an amount. *)
Definition priced_with (words : list pystr) (text : pystr) : Prop :=
  exists w mk,
    In w words /\ spells w mk = true /\ marked_amount_at mk text.

(** The text starts with a dot and two digits. *)
Definition starts_fraction (rest : pystr) : bool :=
  match rest with
  | p :: d1 :: d2 :: _ => is_dot p && is_digit d1 && is_digit d2
  | _ => false
  end.

(** The fraction [amount_dec] takes at [rest]: the dot and two digits,
    or nothing. *)
Definition fraction_of (rest : pystr) : pystr :=
  if starts_fraction rest then firstn 3 rest else [].

(** The text does not continue a run of digits and commas. *)
Definition ends_run (rest : pystr) : bool :=
  match rest with
  | [] => true
  | y :: _ => negb (is_digit_or_comma y)
  end.

(** A character that can start a USD marker. *)
Definition head_USD (x : char) : bool :=
  lit_eq_ignorecase (ch "U") x || (x =? ch "$")%N.

(** Digits, dots, commas and whitespace. *)
Definition plain_char (x : char) : bool :=
  is_digit x || is_dot x || (x =? ch ",")%N || is_space x.

(** The characters of a plain amount in yen. *)
Definition yen_char (x : char) : bool := plain_char x || (x =? ch "¥")%N.

(** A character that can start a marker of the five patterns tried
    before the JPY one. *)
Definition head_before_JPY (x : char) : bool :=
  existsb (fun p => lit_eq_ignorecase p x)
          [ch "U"; ch "E"; ch "G"; ch "C"; ch "A"]
  || existsb (fun y => (x =? y)%N) [ch "$"; ch "€"; ch "£"].

(** Every pattern of a list is [(marker)\s*(amount)] with a marker
    that captures nothing. *)
Definition price_patterns_ok (ps : list (regex * pystr)) : Prop :=
  Forall (fun pc =>
            exists M A, fst pc = Price.price_pattern M A
                        /\ ReSem.group_free M = true
                        /\ (A = Price.amount_dec \/ A = Price.amount_int))
         ps.

(** The characters of a European price. *)
Definition euro_char (x : char) : bool :=
  is_digit x || is_dot x || (x =? ch ",")%N || (x =? ch "€")%N.

(** A three-digit group after a dot. *)
Definition is_group (g : pystr) : bool :=
  match g with
  | [p; a; b; c] => is_dot p && is_digit a && is_digit b && is_digit c
  | _ => false
  end.

(** A price in the European form: the euro sign, one to three digits,
    one or more dot-separated groups of three digits, a comma and two
    decimals. *)
Definition european_price (text : pystr) : Prop :=
  exists lead groups c1 c2,
    text = ch "€" :: lead ++ concat groups ++ [ch ","; c1; c2]
    /\ lead <> [] /\ length lead <= 3
    /\ Forall (fun x => is_digit x = true) lead
    /\ groups <> []
    /\ Forall (fun g => is_group g = true) groups
    /\ is_digit c1 = true /\ is_digit c2 = true.

End PriceSpec.

(* ================================================================= *)
(** * Facts about [float(...)] on captured amounts *)

Module PyFloatFacts.

Import PyFloat PriceSpec.

Lemma is_digit_range d : is_digit d = true <-> (48 <= d <= 57)%N.
Proof.
  unfold is_digit. rewrite andb_true_iff, !N.leb_le. tauto.
Qed.

Ltac digit_range :=
  repeat match goal with
         | H : is_digit _ = true |- _ => apply is_digit_range in H
         end.

Lemma digit_neq d c :
  is_digit d = true -> is_digit c = false -> (d =? c)%N = false.
Proof.
  intros Hd Hc. destruct (N.eqb_spec d c); auto. subst. congruence.
Qed.

Lemma digit_not_space d : is_digit d = true -> is_space d = false.
Proof.
  intros H. digit_range. unfold is_space.
  repeat match goal with
         | |- context [(?a <=? ?b)%N] => destruct (N.leb_spec a b)
         | |- context [(?a =? ?b)%N] => destruct (N.eqb_spec a b)
         end; simpl; auto; lia.
Qed.

Lemma digit_lower d : is_digit d = true -> ascii_lower d = d.
Proof.
  intros H. digit_range. unfold ascii_lower.
  destruct (N.leb_spec 65 d); simpl; auto. lia.
Qed.

Lemma lstrip_keeps x s : is_space x = false -> lstrip (x :: s) = x :: s.
Proof. intros H. simpl. now rewrite H. Qed.

Lemma lstrip_rev_keeps (s : pystr) :
  s <> [] -> is_space (last s 0%N) = false -> lstrip (rev s) = rev s.
Proof.
  intros Hne H. destruct (exists_last Hne) as (l & a & ->).
  rewrite last_last in H. rewrite rev_unit. simpl. now rewrite H.
Qed.

Lemma strip_keeps (s : pystr) :
  s <> [] ->
  is_space (hd 0%N s) = false ->
  is_space (last s 0%N) = false ->
  strip s = s.
Proof.
  intros Hne Hhd Hlast. unfold strip, rstrip.
  destruct s as [|x s]; [congruence|]. simpl in Hhd.
  rewrite lstrip_keeps by exact Hhd.
  rewrite lstrip_rev_keeps by assumption. apply rev_involutive.
Qed.

Lemma last_Forall (P : char -> Prop) s d :
  s <> [] -> Forall P s -> P (last s d).
Proof.
  induction s as [|x s IH]; intros Hne HF; [congruence|].
  inversion HF; subst. destruct s as [|y s]; simpl; auto.
  apply IH; auto. discriminate.
Qed.

Lemma split_sign_digit d s :
  is_digit d = true -> split_sign (d :: s) = (false, d :: s).
Proof.
  intros H. unfold split_sign.
  rewrite !(digit_neq d _ H) by reflexivity. reflexivity.
Qed.

Lemma lower_eqb_digit d s w :
  is_digit d = true ->
  match w with [] => true | c :: _ => negb (is_digit c) end = true ->
  lower_eqb (d :: s) w = false.
Proof.
  intros H Hw. unfold lower_eqb. destruct w as [|c w]; simpl; auto.
  apply negb_true_iff in Hw.
  rewrite (digit_lower d H), (digit_neq d c H Hw). reflexivity.
Qed.

Lemma span_digits_run ds rest :
  Forall (fun x => is_digit x = true) ds ->
  match rest with [] => True | y :: _ => is_digit y = false end ->
  span_digits (ds ++ rest) = (ds, rest).
Proof.
  induction 1 as [|d ds Hd _ IH]; intros Hrest; simpl.
  - destruct rest; simpl; auto. now rewrite Hrest.
  - rewrite Hd, IH; auto.
Qed.

(** [float] accepts a run of digits, with or without a dot and two more
    digits, and reads it as the decimal it is. *)
Lemma of_str_digits ds frac :
  ds <> [] ->
  Forall (fun x => is_digit x = true) ds ->
  (frac = [] \/
   exists d1 d2, frac = [ch "."; d1; d2]
                 /\ is_digit d1 = true /\ is_digit d2 = true) ->
  of_str (ds ++ frac)
  = Return (of_decimal false (digits_value 0 (ds ++ filter is_digit frac))
                       (match frac with [] => 0 | _ :: _ => -2 end)%Z).
Proof.
  intros Hne Hds Hfrac.
  assert (Hall : Forall (fun x => is_space x = false) (ds ++ frac)).
  { apply Forall_app. split.
    - eapply Forall_impl; [|exact Hds]. intros; now apply digit_not_space.
    - destruct Hfrac as [->|(d1 & d2 & -> & H1 & H2)]; auto.
      repeat constructor; auto using digit_not_space. }
  unfold of_str. rewrite strip_keeps.
  2:{ destruct ds; [congruence|discriminate]. }
  2:{ destruct ds; [congruence|]. inversion Hall; auto. }
  2:{ apply last_Forall with (P := fun x => is_space x = false); auto.
      destruct ds; [congruence|discriminate]. }
  destruct ds as [|d ds]; [congruence|]. inversion Hds; subst.
  simpl app at 1. rewrite split_sign_digit by auto. cbv beta iota.
  rewrite !lower_eqb_digit by (auto; reflexivity). simpl orb. cbv iota.
  change (d :: ds ++ frac) with ((d :: ds) ++ frac).
  destruct Hfrac as [->|(d1 & d2 & -> & H1' & H2')].
  - rewrite span_digits_run by auto. simpl. rewrite !app_nil_r. reflexivity.
  - rewrite span_digits_run by (auto; reflexivity).
    unfold split_fraction. rewrite N.eqb_refl.
    cbn [span_digits]. rewrite H1', H2'. cbv beta iota.
    simpl. rewrite H1', H2'. reflexivity.
Qed.

End PyFloatFacts.

(* ================================================================= *)
(** * Facts about the price patterns *)

Module PriceFacts.

Import Re ReSem ReFacts Price PriceSpec PyFloatFacts.

Lemma set_test_digit ic x :
  set_test ic [SRange (ch "0") (ch "9")] x = is_digit x.
Proof. unfold set_test. simpl. now rewrite orb_false_r. Qed.

Lemma set_test_digit_or_comma x :
  set_test true [SRange (ch "0") (ch "9"); SChar (ch ",")] x
  = is_digit_or_comma x.
Proof. unfold set_test. simpl. now rewrite orb_false_r. Qed.

Ltac inv H := inversion H; subst; clear H.

Ltac inv_sem :=
  repeat match goal with
         | H : Sem _ (Seq _ _) _ _ _ |- _ => inv H
         | H : Sem _ (Lit _) _ _ _ |- _ => inv H
         | H : Sem _ (InSet _) _ _ _ |- _ => inv H
         | H : Sem _ Space _ _ _ |- _ => inv H
         | H : Sem _ (Group _ _) _ _ _ |- _ => inv H
         | H : Sem _ Empty _ _ _ |- _ => inv H
         | H : Sem _ (Times 0 _) _ _ _ |- _ => inv H
         | H : Sem _ (Times (S _) _) _ _ _ |- _ => inv H
         | H : Sem _ (Opt _) _ _ _ |- _ => inv H
         | H : Sem _ (Alt _ _) _ _ _ |- _ => inv H
         end.

(** A repetition of a one-character pattern matches a run of such
    characters, and every run. *)
Lemma Sem_star_run ic r test
      (Hr : forall w c c1, Sem ic r w c c1 ->
                           exists x, w = [x] /\ test x = true /\ c1 = c) :
  forall w c c1,
    Sem ic (Star r) w c c1 ->
    Forall (fun x => test x = true) w /\ c1 = c.
Proof.
  intros w c c1 H. remember (Star r) as sr eqn:E.
  induction H; try discriminate; inversion E; subst.
  - auto.
  - apply Hr in H0. destruct H0 as (x & -> & Hx & ->).
    destruct (IHSem2 eq_refl) as [HF ->]. split; auto.
    simpl. constructor; auto.
Qed.

Lemma Sem_spaces ic w c c1 :
  Sem ic (Star Space) w c c1 ->
  Forall (fun x => is_space x = true) w /\ c1 = c.
Proof.
  apply Sem_star_run. intros w' c' c1' H. inv H. eauto.
Qed.

Lemma spaces_Sem ic ws c :
  Forall (fun x => is_space x = true) ws -> Sem ic (Star Space) ws c c.
Proof.
  induction 1 as [|x ws Hx _ IH]; [constructor|].
  change (x :: ws) with ([x] ++ ws).
  apply SemStarCons with (c1 := c); auto; [discriminate|now constructor].
Qed.

Ltac inv_seq :=
  repeat match goal with
         | H : Sem _ (Seq _ _) _ _ _ |- _ => inv H
         | H : Sem _ (InSet _) _ _ _ |- _ => inv H
         | H : Sem _ (Lit _) _ _ _ |- _ => inv H
         | H : Sem _ (Group _ _) _ _ _ |- _ => inv H
         end.

Ltac star_run t :=
  match goal with
  | H : Sem _ (Star _) _ _ _ |- _ =>
    apply Sem_star_run with (test := t) in H;
    [ destruct H as [? ->]
    | let w := fresh "w" in
      let c := fresh "c" in
      let c1 := fresh "c" in
      let H' := fresh "H" in
      intros w c c1 H'; inv H';
      repeat match goal with
             | E : set_test _ _ _ = true |- _ =>
               rewrite set_test_digit_or_comma in E
             end; eauto ]
  end.

Lemma Sem_amount_dec w c c1 :
  Sem true amount_dec w c c1 -> amount_shape w /\ c1 = c.
Proof.
  unfold amount_dec, digit, digit_or_comma. intros H.
  inv_seq. star_run is_digit_or_comma.
  match goal with H : Sem _ (Opt _) _ _ _ |- _ => inv H end.
  - split; auto. simpl. rewrite set_test_digit in *. apply AmountShape; auto.
  - inv_sem. rewrite set_test_digit in *.
    split; auto. simpl. apply AmountShape; auto.
    right.
    match goal with
    | E : lit_test true _ ?x = true |- _ =>
      unfold lit_test in E; simpl in E; apply N.eqb_eq in E; subst x
    end.
    eexists _, _. repeat split; eauto.
Qed.

Lemma Sem_amount_int w c c1 :
  Sem true amount_int w c c1 -> amount_shape w /\ c1 = c.
Proof.
  unfold amount_int, digit, digit_or_comma. intros H.
  inv_seq. star_run is_digit_or_comma.
  rewrite set_test_digit in *.
  split; auto. simpl.
  match goal with |- amount_shape (?d :: ?b) =>
    rewrite <- (app_nil_r b) end.
  apply AmountShape; auto.
Qed.

Lemma amount_body_facts body :
  Forall (fun x => is_digit_or_comma x = true) body ->
  filter is_digit body = remove_char (ch ",") body
  /\ Forall (fun x => is_digit x = true) (remove_char (ch ",") body)
  /\ existsb is_dot body = false.
Proof.
  induction 1 as [|x body Hx _ (IH1 & IH2 & IH3)]; simpl; auto.
  unfold is_digit_or_comma in Hx.
  destruct (is_digit x) eqn:Hd; simpl in Hx.
  - unfold is_dot at 1.
    rewrite (digit_neq x (ch ",") Hd eq_refl),
            (digit_neq x (ch ".") Hd eq_refl).
    simpl. rewrite IH1. auto.
  - apply N.eqb_eq in Hx. subst x. simpl. auto.
Qed.

Lemma remove_char_app c a b :
  remove_char c (a ++ b) = remove_char c a ++ remove_char c b.
Proof. apply filter_app. Qed.

Lemma remove_char_keep c x s :
  (x =? c)%N = false -> remove_char c (x :: s) = x :: remove_char c s.
Proof. intros H. unfold remove_char. simpl. now rewrite H. Qed.

(** The captured amount, its commas removed, is always a number for
    [float]: the one its digits spell. *)
Lemma of_str_amount am :
  amount_shape am ->
  PyFloat.of_str (remove_char (ch ",") am) = Return (amount_float am).
Proof.
  intros H. destruct H as [d body frac Hd Hbody Hfrac].
  destruct (amount_body_facts body Hbody) as (E1 & E2 & E3).
  assert (Efrac : remove_char (ch ",") frac = frac
                  /\ existsb is_dot frac
                     = match frac with [] => false | _ :: _ => true end).
  { destruct Hfrac as [->|(d1 & d2 & -> & H1 & H2)]; [auto|].
    rewrite !remove_char_keep; auto using digit_neq. }
  destruct Efrac as [Ef1 Ef2].
  rewrite remove_char_keep by auto using digit_neq.
  rewrite remove_char_app, Ef1, app_comm_cons.
  rewrite of_str_digits; auto; [|discriminate].
  unfold amount_float. f_equal. f_equal.
  - cbn [filter]. rewrite Hd, filter_app, E1. reflexivity.
  - cbn [existsb]. unfold is_dot at 1.
    rewrite (digit_neq d (ch ".") Hd eq_refl).
    rewrite existsb_app, E3, Ef2. simpl. destruct frac; reflexivity.
Qed.

(** ** Markers *)

Lemma word_cons c c' w :
  word (c :: c' :: w) = Seq (Lit c) (word (c' :: w)).
Proof. reflexivity. Qed.

Lemma ci_prefix_cons p w x s :
  ci_prefix (p :: w) (x :: s) = lit_eq_ignorecase p x && ci_prefix w s.
Proof. reflexivity. Qed.

Lemma Sem_word w :
  forall mk c c1,
    Sem true (word w) mk c c1 -> spells w mk = true /\ c1 = c.
Proof.
  unfold spells.
  induction w as [|p w IH]; intros mk c c1 H.
  - inv H. auto.
  - destruct w as [|p' w].
    + inv H. simpl. unfold lit_test in *.
      match goal with E : _ = true |- _ => rewrite E end. auto.
    + rewrite word_cons in H. inv H.
      match goal with H : Sem _ (Lit _) _ _ _ |- _ => inv H end.
      match goal with H' : Sem _ _ _ _ _ |- _ =>
        apply IH in H'; destruct H' as [Hsp ->] end.
      split; auto. unfold lit_test in *.
      apply andb_true_iff in Hsp. destruct Hsp as [H1 H2].
      simpl app. rewrite ci_prefix_cons.
      match goal with E : lit_eq_ignorecase _ _ = true |- _ =>
        rewrite E end.
      rewrite H1. exact H2.
Qed.

Lemma word_Sem w :
  forall mk c, spells w mk = true -> Sem true (word w) mk c c.
Proof.
  unfold spells.
  induction w as [|p w IH]; intros mk c H;
    apply andb_true_iff in H; destruct H as [H1 H2].
  - destruct mk; [constructor|discriminate].
  - destruct mk as [|x mk]; [discriminate|].
    simpl in H1. apply andb_true_iff in H1. destruct H1 as [Hx H1].
    simpl in H2.
    destruct w as [|p' w].
    + destruct mk; [|discriminate]. simpl. now constructor.
    + rewrite word_cons. change (x :: mk) with ([x] ++ mk).
      apply SemSeq with (c1 := c); [now constructor|].
      apply IH. now rewrite H1, H2.
Qed.

Lemma ci_prefix_app w :
  forall mk post, ci_prefix w mk = true -> ci_prefix w (mk ++ post) = true.
Proof.
  induction w as [|p w IH]; intros mk post H; auto.
  destruct mk as [|x mk]; [discriminate|]. simpl in *.
  apply andb_true_iff in H. destruct H as [H1 H2].
  now rewrite H1, IH.
Qed.

Lemma contains_ci_here w s : ci_prefix w s = true -> contains_ci w s = true.
Proof. intros H. destruct s; simpl; now rewrite H. Qed.

Lemma contains_ci_app w pre s :
  contains_ci w s = true -> contains_ci w (pre ++ s) = true.
Proof.
  intros H. induction pre as [|x pre IH]; auto.
  simpl. rewrite IH. apply orb_true_r.
Qed.

Lemma spells_contains w mk pre post :
  spells w mk = true -> contains_ci w (pre ++ mk ++ post) = true.
Proof.
  unfold spells. intros H. apply andb_true_iff in H. destruct H as [H _].
  apply contains_ci_app, contains_ci_here, ci_prefix_app, H.
Qed.

Lemma spells_one c mk :
  is_ascii_letter c = false -> spells [c] mk = true -> mk = [c].
Proof.
  unfold spells. intros Hc H.
  apply andb_true_iff in H. destruct H as [H1 H2].
  destruct mk as [|x [|y mk]]; try discriminate.
  simpl in H1. unfold lit_eq_ignorecase in H1. rewrite Hc in H1.
  rewrite andb_true_r in H1. apply N.eqb_eq in H1. now subst.
Qed.

(** A marker followed by an amount belongs to the pattern. *)
Lemma price_pattern_Sem M mk ws d :
  Sem true M mk [] [] ->
  Forall (fun x => is_space x = true) ws ->
  is_digit d = true ->
  forall A, A = amount_dec \/ A = amount_int ->
  exists c, Sem true (price_pattern M A) (mk ++ ws ++ [d]) [] c.
Proof.
  intros HM Hws Hd A HA.
  assert (Hdig : Sem true digit [d] [(1, mk)] [(1, mk)]).
  { constructor. now rewrite set_test_digit. }
  exists [(2, [d]); (1, mk)]. unfold price_pattern.
  apply SemSeq with (c1 := [(1, mk)]); [now constructor|].
  apply SemSeq with (c1 := [(1, mk)]); [now apply spaces_Sem|].
  constructor. destruct HA as [-> | ->].
  - unfold amount_dec. change [d] with ([d] ++ [] ++ []).
    apply SemSeq with (c1 := [(1, mk)]); auto.
    apply SemSeq with (c1 := [(1, mk)]); constructor.
  - unfold amount_int. change [d] with ([d] ++ []).
    apply SemSeq with (c1 := [(1, mk)]); auto. constructor.
Qed.

(** A marked amount in the text makes the pattern match. *)
Lemma search_marked M mk text :
  Sem true M mk [] [] ->
  marked_amount_at mk text ->
  forall A, A = amount_dec \/ A = amount_int ->
  search true (price_pattern M A) text <> None.
Proof.
  intros HM (pre & ws & d & post & -> & Hws & Hd) A HA.
  destruct (price_pattern_Sem M mk ws d HM Hws Hd A HA) as [c Hc].
  replace (pre ++ mk ++ ws ++ d :: post)
    with (pre ++ (mk ++ ws ++ [d]) ++ post).
  - eapply search_complete; eauto.
  - now rewrite <- !app_assoc.
Qed.

(** What a match of a price pattern is made of. *)
Lemma search_hit M A text m :
  search true (price_pattern M A) text = Some m ->
  group_free M = true ->
  A = amount_dec \/ A = amount_int ->
  exists pre mk ws am post,
    text = pre ++ mk ++ ws ++ am ++ post
    /\ Sem true M mk [] []
    /\ Forall (fun x => is_space x = true) ws
    /\ amount_shape am
    /\ group m 1 = Some mk
    /\ group m 2 = Some am.
Proof.
  intros H HM HA. apply search_sound in H.
  destruct H as (pre & w & post & -> & H).
  unfold price_pattern in H. destruct m as [cs]. simpl in H.
  inv H.
  match goal with H : Sem _ (Group 1 _) _ _ _ |- _ => inv H end.
  match goal with H : Sem _ (Seq _ _) _ _ _ |- _ => inv H end.
  match goal with H : Sem _ (Group 2 _) _ _ _ |- _ => inv H end.
  match goal with H : Sem _ (Star Space) _ _ _ |- _ =>
    apply Sem_spaces in H; destruct H as [Hws ->] end.
  match goal with H : Sem _ M _ _ _ |- _ =>
    pose proof (Sem_group_free true M HM _ _ _ H) as E; subst end.
  match goal with H : Sem _ A ?am ?c0 ?c2 |- _ =>
    assert (Ham : amount_shape am /\ c2 = c0)
      by (destruct HA as [-> | ->];
          [apply Sem_amount_dec in H|apply Sem_amount_int in H]; exact H);
    destruct Ham as [Ham ->]
  end.
  match goal with H : Sem _ M ?mk _ _ |- _ =>
    match goal with H' : Sem _ A ?am _ _ |- _ =>
      exists pre, mk, w0, am, post
    end
  end.
  repeat split; auto.
  now rewrite <- !app_assoc.
Qed.

(** ** The loop over the patterns *)

Lemma patterns_ok : price_patterns_ok patterns.
Proof.
  unfold price_patterns_ok, patterns.
  repeat constructor; simpl; eexists _, _; repeat split; auto.
Qed.

Lemma first_match_miss pat cur ps text :
  search true pat text = None ->
  first_match ((pat, cur) :: ps) text = first_match ps text.
Proof. intros H. simpl. unfold IGNORECASE. now rewrite H. Qed.

Lemma first_match_hit M A cur ps text m :
  search true (price_pattern M A) text = Some m ->
  group_free M = true ->
  A = amount_dec \/ A = amount_int ->
  exists g,
    group m 2 = Some g /\ amount_shape g
    /\ first_match ((price_pattern M A, cur) :: ps) text
       = Return (Some (Price cur (AmtFloat (amount_float g)))).
Proof.
  intros H HM HA.
  destruct (search_hit M A text m H HM HA)
    as (pre & mk & ws & am & post & _ & _ & _ & Ham & _ & Hg).
  exists am. repeat split; auto.
  simpl. unfold IGNORECASE. rewrite H, Hg, (of_str_amount am Ham).
  reflexivity.
Qed.

(** The loop either finds no pattern that matches, or returns the
    currency of the first pattern that does, with the float its amount
    spells. *)
Lemma first_match_cases ps text :
  price_patterns_ok ps ->
  (first_match ps text = Return None
   /\ forall pat cur, In (pat, cur) ps -> search true pat text = None)
  \/ (exists ps1 pat cur ps2 m g,
         ps = ps1 ++ (pat, cur) :: ps2
         /\ (forall pat' cur',
                In (pat', cur') ps1 -> search true pat' text = None)
         /\ search true pat text = Some m
         /\ group m 2 = Some g
         /\ amount_shape g
         /\ first_match ps text
            = Return (Some (Price cur (AmtFloat (amount_float g))))).
Proof.
  induction 1 as [|[pat cur] ps Hpc Hps IH].
  - left. split; auto. intros ? ? [].
  - destruct Hpc as (M & A & E & HM & HA). simpl in E. subst pat.
    destruct (search true (price_pattern M A) text) as [m|] eqn:Hs.
    + right.
      destruct (first_match_hit M A cur ps text m Hs HM HA)
        as (g & Hg & Hsh & Hfm).
      exists [], (price_pattern M A), cur, ps, m, g.
      repeat split; auto. intros ? ? [].
    + rewrite (first_match_miss _ cur ps text Hs).
      destruct IH as [[Hn Hall]|(ps1 & pat & cur' & ps2 & m & g & -> & Hall
                                 & Hs' & Hg & Hsh & Hfm)].
      * left. split; auto. intros pat' cur' [E|Hin]; eauto.
        inversion E; subst; auto.
      * right.
        exists ((price_pattern M A, cur) :: ps1), pat, cur', ps2, m, g.
        repeat split; auto.
        intros pat' cur'' [E|Hin]; eauto. inversion E; subst; auto.
Qed.

(** ** Where the markers are *)

Lemma Sem_lit_spells c mk k k1 :
  Sem true (Lit c) mk k k1 -> spells [c] mk = true /\ k1 = k.
Proof.
  intros H. inv H. unfold spells, lit_test in *. simpl.
  match goal with E : _ = true |- _ => rewrite E end. auto.
Qed.

Lemma has_marker_word w mk pre post :
  In w marker_words -> spells w mk = true ->
  has_marker (pre ++ mk ++ post) = true.
Proof.
  intros Hin Hsp. unfold has_marker. apply existsb_exists.
  exists w. split; auto. now apply spells_contains.
Qed.

Lemma Sem_alt ic r1 r2 w c c1 :
  Sem ic (Alt r1 r2) w c c1 -> Sem ic r1 w c c1 \/ Sem ic r2 w c c1.
Proof. intros H. inv H; auto. Qed.

Lemma Sem_seq ic r1 r2 w c c2 :
  Sem ic (Seq r1 r2) w c c2 ->
  exists w1 w2 c1, w = w1 ++ w2 /\ Sem ic r1 w1 c c1 /\ Sem ic r2 w2 c1 c2.
Proof. intros H. inv H. eauto 6. Qed.

Lemma Sem_opt_space ic w c c1 :
  Sem ic (Opt Space) w c c1 ->
  Forall (fun x => is_space x = true) w /\ c1 = c.
Proof. intros H. inv H; auto. inv H1. auto. Qed.

Lemma Sem_symbol sym mk c c1 :
  is_ascii_letter sym = false ->
  Sem true (Lit sym) mk c c1 -> mk = [sym] /\ c1 = c.
Proof.
  intros Hs H. apply Sem_lit_spells in H. destruct H as [H ->].
  split; auto. now apply spells_one.
Qed.

Lemma Sem_marker_USD mk c c1 :
  Sem true marker_USD mk c c1 ->
  c1 = c
  /\ (spells (py "USD") mk = true
      \/ mk = py "$"
      \/ exists us sp, mk = us ++ sp ++ py "$"
                       /\ spells (py "US") us = true
                       /\ Forall (fun x => is_space x = true) sp).
Proof.
  unfold marker_USD. intros H.
  apply Sem_alt in H. destruct H as [H|H].
  { apply Sem_word in H. destruct H. auto. }
  apply Sem_alt in H. destruct H as [H|H].
  - apply Sem_seq in H. destruct H as (us & w2 & k1 & -> & Hus & H).
    apply Sem_seq in H. destruct H as (sp & w3 & k2 & -> & Hsp & H).
    apply Sem_word in Hus. destruct Hus as [Hus ->].
    apply Sem_opt_space in Hsp. destruct Hsp as [Hsp ->].
    apply Sem_symbol in H; [|reflexivity]. destruct H as [-> ->].
    split; auto. right. right. exists us, sp. auto.
  - apply Sem_symbol in H; [|reflexivity]. destruct H as [-> ->]. auto.
Qed.

(** The other markers are a code or a sign. *)
Lemma Sem_marker_code code sym mk c c1 :
  is_ascii_letter sym = false ->
  Sem true (Alt (word code) (Lit sym)) mk c c1 ->
  c1 = c /\ (spells code mk = true \/ mk = [sym]).
Proof.
  intros Hs H. apply Sem_alt in H. destruct H as [H|H].
  - apply Sem_word in H. destruct H. auto.
  - apply Sem_symbol in H; auto. destruct H as [-> ->]. auto.
Qed.

(** [CAD|C\$] and [AUD|A\$] *)
Lemma Sem_marker_words w1 w2 mk c c1 :
  Sem true (Alt (word w1) (word w2)) mk c c1 ->
  c1 = c /\ (spells w1 mk = true \/ spells w2 mk = true).
Proof.
  intros H. apply Sem_alt in H.
  destruct H as [H|H]; apply Sem_word in H; destruct H; auto.
Qed.

Lemma spells_dollar_pair c mk :
  spells [c; ch "$"] mk = true -> exists x, mk = [x; ch "$"].
Proof.
  unfold spells. intros H. apply andb_true_iff in H. destruct H as [H1 H2].
  destruct mk as [|x [|y [|z mk]]]; try discriminate.
  exists x. simpl in H1. rewrite andb_true_r in H1.
  apply andb_true_iff in H1. destruct H1 as [_ H1].
  unfold lit_eq_ignorecase in H1. simpl in H1.
  apply N.eqb_eq in H1. now subst.
Qed.

(** A match of any of the six patterns shows a marker in the text. *)
Lemma marker_in_text M mk c c1 pre post :
  In M [marker_USD; marker_EUR; marker_GBP; marker_CAD; marker_AUD;
        marker_JPY] ->
  Sem true M mk c c1 ->
  has_marker (pre ++ mk ++ post) = true.
Proof.
  intros HM H. simpl in HM.
  destruct HM as [<-|[<-|[<-|[<-|[<-|[<-|[]]]]]]].
  - apply Sem_marker_USD in H.
    destruct H as [_ [H|[->|(us & sp & -> & _ & _)]]].
    + apply has_marker_word with (w := py "USD"); simpl; auto.
    + apply has_marker_word with (w := py "$"); simpl; auto.
    + replace (pre ++ (us ++ sp ++ py "$") ++ post)
        with ((pre ++ us ++ sp) ++ py "$" ++ post)
        by (now rewrite <- !app_assoc).
      apply has_marker_word with (w := py "$"); simpl; auto.
  - apply Sem_marker_code in H; [|reflexivity].
    destruct H as [_ [H| ->]].
    + apply has_marker_word with (w := py "EUR"); simpl; auto 10.
    + apply has_marker_word with (w := py "€"); simpl; auto 10.
  - apply Sem_marker_code in H; [|reflexivity].
    destruct H as [_ [H| ->]].
    + apply has_marker_word with (w := py "GBP"); simpl; auto 10.
    + apply has_marker_word with (w := py "£"); simpl; auto 10.
  - apply Sem_marker_words in H. destruct H as [_ [H|H]].
    + apply has_marker_word with (w := py "CAD"); simpl; auto 10.
    + apply has_marker_word with (w := py "C$"); simpl; auto 10.
  - apply Sem_marker_words in H. destruct H as [_ [H|H]].
    + apply has_marker_word with (w := py "AUD"); simpl; auto 12.
    + apply has_marker_word with (w := py "A$"); simpl; auto 12.
  - apply Sem_marker_code in H; [|reflexivity].
    destruct H as [_ [H| ->]].
    + apply has_marker_word with (w := py "JPY"); simpl; auto 14.
    + apply has_marker_word with (w := py "¥"); simpl; auto 14.
Qed.

(** ** What the matcher does on an amount *)

Lemma consumed_eq s w s1 : s = w ++ s1 -> consumed s s1 = w.
Proof. intros ->. apply consumed_app. Qed.

Lemma digits_or_commas body :
  Forall (fun x => is_digit_or_comma x = true) body ->
  Forall (fun x =>
            set_test true [SRange (ch "0") (ch "9"); SChar (ch ",")] x = true)
         body.
Proof.
  intros H. eapply Forall_impl; [|exact H].
  intros x Hx. now rewrite set_test_digit_or_comma.
Qed.

(** On a digit, digits and commas, a dot and two digits, [amount_dec]
    takes all of it. *)
Lemma amount_dec_greedy_frac d body d1 d2 rest c k m :
  is_digit d = true ->
  Forall (fun x => is_digit_or_comma x = true) body ->
  is_digit d1 = true -> is_digit d2 = true ->
  k rest c = Some m ->
  rmatch true amount_dec (d :: body ++ ch "." :: d1 :: d2 :: rest) c k
  = Some m.
Proof.
  intros Hd Hbody H1 H2 Hk.
  unfold amount_dec, digit, digit_or_comma. cbn [rmatch one_char].
  rewrite set_test_digit, Hd.
  apply star_one_char_greedy
    with (test := set_test true [SRange (ch "0") (ch "9"); SChar (ch ",")]);
    auto using digits_or_commas.
  cbn [rmatch one_char times_loop]. unfold lit_test.
  rewrite !set_test_digit, H1, H2.
  change (lit_eq_ignorecase (ch ".") (ch ".")) with true. cbv iota.
  now rewrite Hk.
Qed.

(** On a digit, digits and commas and nothing that continues an
    amount, [amount_dec] takes the digits and commas. *)
Lemma amount_dec_greedy_plain d body rest c k m :
  is_digit d = true ->
  Forall (fun x => is_digit_or_comma x = true) body ->
  match rest with
  | [] => True
  | y :: _ => is_digit_or_comma y = false /\ is_dot y = false
  end ->
  k rest c = Some m ->
  rmatch true amount_dec (d :: body ++ rest) c k = Some m.
Proof.
  intros Hd Hbody Hrest Hk.
  unfold amount_dec, digit, digit_or_comma. cbn [rmatch one_char].
  rewrite set_test_digit, Hd.
  apply star_one_char_greedy
    with (test := set_test true [SRange (ch "0") (ch "9"); SChar (ch ",")]);
    auto using digits_or_commas.
  - destruct rest as [|y rest]; auto.
    rewrite set_test_digit_or_comma. tauto.
  - destruct rest as [|y rest]; cbn [rmatch one_char]; auto.
    destruct Hrest as [_ Hy]. unfold is_dot in Hy.
    unfold lit_test.
    change (lit_eq_ignorecase (ch ".") y) with (y =? ch ".")%N.
    now rewrite Hy.
Qed.

(** The same for [amount_int], which has no fraction. *)
Lemma amount_int_greedy d body rest c k m :
  is_digit d = true ->
  Forall (fun x => is_digit_or_comma x = true) body ->
  match rest with
  | [] => True
  | y :: _ => is_digit_or_comma y = false
  end ->
  k rest c = Some m ->
  rmatch true amount_int (d :: body ++ rest) c k = Some m.
Proof.
  intros Hd Hbody Hrest Hk.
  unfold amount_int, digit, digit_or_comma. cbn [rmatch one_char].
  rewrite set_test_digit, Hd.
  apply star_one_char_greedy
    with (test := set_test true [SRange (ch "0") (ch "9"); SChar (ch ",")]);
    auto using digits_or_commas.
  destruct rest as [|y rest]; auto.
  now rewrite set_test_digit_or_comma.
Qed.

(** A marker the pattern takes as a whole, whitespace, and an amount
    with a fraction: the anchored match and its two groups. *)
Lemma match_here_marked_frac M mk
      (HM : forall s c k, rmatch true M (mk ++ s) c k = k s c)
      ws d body d1 d2 rest :
  Forall (fun x => is_space x = true) ws ->
  is_digit d = true ->
  Forall (fun x => is_digit_or_comma x = true) body ->
  is_digit d1 = true -> is_digit d2 = true ->
  match_here true (price_pattern M amount_dec)
             (mk ++ ws ++ d :: body ++ ch "." :: d1 :: d2 :: rest)
  = Some (MatchObj [(2, d :: body ++ [ch "."; d1; d2]); (1, mk)]).
Proof.
  intros Hws Hd Hbody H1 H2.
  unfold match_here, price_pattern. cbn [rmatch]. rewrite HM.
  match goal with
  | |- match ?X with _ => _ end = _ =>
    assert (E : X = Some [(2, d :: body ++ [ch "."; d1; d2]); (1, mk)])
  end.
  { apply star_one_char_greedy with (test := is_space); auto.
    - now apply digit_not_space.
    - apply amount_dec_greedy_frac; auto.
      rewrite (consumed_eq _ (d :: body ++ [ch "."; d1; d2]) rest)
        by (simpl; now rewrite <- app_assoc).
      rewrite (consumed_eq _ mk _) by reflexivity.
      reflexivity. }
  now rewrite E.
Qed.

(** The same for an amount without a fraction. *)
Lemma match_here_marked_plain M mk
      (HM : forall s c k, rmatch true M (mk ++ s) c k = k s c)
      ws d body rest :
  Forall (fun x => is_space x = true) ws ->
  is_digit d = true ->
  Forall (fun x => is_digit_or_comma x = true) body ->
  match rest with
  | [] => True
  | y :: _ => is_digit_or_comma y = false /\ is_dot y = false
  end ->
  match_here true (price_pattern M amount_dec)
             (mk ++ ws ++ d :: body ++ rest)
  = Some (MatchObj [(2, d :: body); (1, mk)]).
Proof.
  intros Hws Hd Hbody Hrest.
  unfold match_here, price_pattern. cbn [rmatch]. rewrite HM.
  match goal with
  | |- match ?X with _ => _ end = _ =>
    assert (E : X = Some [(2, d :: body); (1, mk)])
  end.
  { apply star_one_char_greedy with (test := is_space); auto.
    - now apply digit_not_space.
    - apply amount_dec_greedy_plain; auto.
      rewrite (consumed_eq _ (d :: body) rest) by reflexivity.
      rewrite (consumed_eq _ mk _) by reflexivity.
      reflexivity. }
  now rewrite E.
Qed.

Lemma search_here ic r s m :
  match_here ic r s = Some m -> search ic r s = Some m.
Proof. intros H. destruct s; simpl; now rewrite H. Qed.

Lemma search_skip ic r x s :
  match_here ic r (x :: s) = None -> search ic r (x :: s) = search ic r s.
Proof. intros H. simpl. now rewrite H. Qed.

(** ** Texts the USD pattern cannot match *)

Lemma lit_plain_letter p x :
  is_ascii_letter p = true ->
  (PyFloat.ascii_lower p =? ch "s")%N = false ->
  (PyFloat.ascii_lower p =? ch "k")%N = false ->
  (PyFloat.ascii_lower p =? ch "i")%N = false ->
  lit_eq_ignorecase p x
  = (PyFloat.ascii_lower x =? PyFloat.ascii_lower p)%N.
Proof.
  intros Hl Hs Hk Hi. unfold lit_eq_ignorecase. rewrite Hl. cbv zeta.
  rewrite Hs, Hk, Hi. simpl andb. now rewrite !orb_false_r.
Qed.

Lemma euro_char_not_usd x :
  euro_char x = true ->
  lit_eq_ignorecase (ch "U") x = false /\ x <> ch "$".
Proof.
  unfold euro_char, is_dot. intros H.
  rewrite lit_plain_letter by reflexivity.
  rewrite !orb_true_iff in H.
  destruct H as [[[H|H]|H]|H];
    try (apply N.eqb_eq in H; subst x; split; [reflexivity|discriminate]).
  rewrite (digit_lower x H). split.
  - apply digit_neq; auto.
  - intros ->. discriminate.
Qed.

Lemma spells_head p w mk :
  spells (p :: w) mk = true ->
  exists x t, mk = x :: t /\ lit_eq_ignorecase p x = true.
Proof.
  unfold spells. intros H. apply andb_true_iff in H. destruct H as [H _].
  destruct mk as [|x t]; [discriminate|]. simpl in H.
  apply andb_true_iff in H. destruct H as [H _]. eauto.
Qed.

Lemma search_USD_euro_chars text :
  Forall (fun x => euro_char x = true) text ->
  search true (price_pattern marker_USD amount_dec) text = None.
Proof.
  intros Hall.
  destruct (search true _ text) as [m|] eqn:Hs; auto. exfalso.
  apply search_hit in Hs; auto.
  destruct Hs as (pre & mk & ws & am & post & -> & HM & _).
  apply Forall_app in Hall. destruct Hall as [_ Hall].
  apply Forall_app in Hall. destruct Hall as [Hmk _].
  apply Sem_marker_USD in HM.
  destruct HM as [_ [H|[->|(us & sp & -> & H & _)]]].
  - apply spells_head in H. destruct H as (x & t & -> & Hx).
    inversion Hmk; subst.
    destruct (euro_char_not_usd x H1) as [E _].
    assert (Hx' : lit_eq_ignorecase (ch "U") x = true) by exact Hx.
    congruence.
  - inversion Hmk; subst.
    destruct (euro_char_not_usd _ H1) as [_ E]. now apply E.
  - apply spells_head in H. destruct H as (x & t & -> & Hx).
    inversion Hmk; subst.
    destruct (euro_char_not_usd x H1) as [E _].
    assert (Hx' : lit_eq_ignorecase (ch "U") x = true) by exact Hx.
    congruence.
Qed.

(** ** Each pattern in its place *)

Lemma first_match_hit_exact pat cur ps text m g :
  search true pat text = Some m ->
  group m 2 = Some g ->
  amount_shape g ->
  first_match ((pat, cur) :: ps) text
  = Return (Some (Price cur (AmtFloat (amount_float g)))).
Proof.
  intros Hs Hg Hsh. simpl. unfold IGNORECASE.
  now rewrite Hs, Hg, (of_str_amount g Hsh).
Qed.

Lemma patterns_at ps1 pat cur ps2 :
  patterns = ps1 ++ (pat, cur) :: ps2 ->
  (ps1 = [] /\ pat = price_pattern marker_USD amount_dec /\ cur = USD)
  \/ (length ps1 = 1 /\ pat = price_pattern marker_EUR amount_dec
      /\ cur = EUR)
  \/ (length ps1 = 2 /\ pat = price_pattern marker_GBP amount_dec
      /\ cur = GBP)
  \/ (length ps1 = 3 /\ pat = price_pattern marker_CAD amount_dec
      /\ cur = CAD)
  \/ (length ps1 = 4 /\ pat = price_pattern marker_AUD amount_dec
      /\ cur = AUD)
  \/ (length ps1 = 5 /\ pat = price_pattern marker_JPY amount_int
      /\ cur = JPY).
Proof.
  unfold patterns. intros H.
  destruct ps1 as [|a1 [|a2 [|a3 [|a4 [|a5 [|a6 ps1]]]]]];
    simpl in H; inversion H; subst; auto 10.
  destruct ps1; discriminate.
Qed.

Lemma marked_nonempty mk text : marked_amount_at mk text -> truthy text = true.
Proof.
  intros (pre & ws & d & post & -> & _).
  destruct pre; auto. destruct mk; auto. destruct ws; auto.
Qed.

Lemma dollar_Sem c : Sem true marker_USD (py "$") c c.
Proof.
  unfold marker_USD. apply SemAltR, SemAltR. now constructor.
Qed.

(** A dollar sign followed by an amount makes the USD pattern match. *)
Lemma dollar_amount_search text :
  dollar_amount text ->
  search true (price_pattern marker_USD amount_dec) text <> None.
Proof.
  intros H. apply search_marked with (mk := py "$"); auto.
  apply dollar_Sem.
Qed.

Lemma marked_shift x mk text :
  marked_amount_at (x :: mk) text -> marked_amount_at mk text.
Proof.
  intros (pre & ws & d & post & -> & Hws & Hd).
  exists (pre ++ [x]), ws, d, post. repeat split; auto.
  now rewrite <- app_assoc.
Qed.

Lemma hit_marked M A text m :
  search true (price_pattern M A) text = Some m ->
  group_free M = true ->
  A = amount_dec \/ A = amount_int ->
  exists mk, Sem true M mk [] [] /\ marked_amount_at mk text.
Proof.
  intros Hs HM HA.
  destruct (search_hit M A text m Hs HM HA)
    as (pre & mk & ws & am & post & -> & Hsem & Hws & Ham & _).
  exists mk. split; auto. destruct Ham as [d body frac Hd _ _].
  exists pre, ws, d, ((body ++ frac) ++ post). repeat split; auto.
Qed.

(** The parser returns, whatever the text. *)
Lemma parse_price_any_returns text :
  exists o, parse_price_any text = Return o.
Proof.
  unfold parse_price_any. destruct (truthy text); simpl; [|eauto].
  destruct (first_match_cases patterns text patterns_ok)
    as [[Hn _]|(ps1 & pat & cur & ps2 & m & g & _ & _ & _ & _ & _ & Hfm)];
    eauto.
Qed.

End PriceFacts.

(* ================================================================= *)
(** * The price parser: results *)

Module PriceTheorems.

Import Re ReSem ReFacts Price PriceSpec PyFloatFacts PriceFacts.

Lemma parse_nonempty text :
  truthy text = true -> parse_price_any text = first_match patterns text.
Proof. intros H. unfold parse_price_any. now rewrite H. Qed.

(** C5.  ["$1,234.56"] parses to USD 1234.56 and ["¥5000"] to JPY 5000,
    the amounts being the binary64 numbers nearest to these decimals;
    the empty string, and every text that holds none of the currency
    markers, gives no match. *)
Theorem parse_price_examples :
  parse_price_any (py "$1,234.56")
  = Return (Some (Price USD (AmtFloat (PyFloat.of_decimal false 123456 (-2)))))
  /\ parse_price_any (py "¥5000")
     = Return (Some (Price JPY (AmtFloat (PyFloat.of_decimal false 5000 0))))
  /\ parse_price_any [] = Return None
  /\ forall text, has_marker text = false ->
                  parse_price_any text = Return None.
Proof.
  split; [vm_compute; reflexivity|].
  split; [vm_compute; reflexivity|].
  split; [reflexivity|].
  intros text Hno. unfold parse_price_any.
  destruct (truthy text); auto. simpl negb. cbv iota.
  destruct (first_match_cases patterns text patterns_ok)
    as [[Hn _]|(ps1 & pat & cur & ps2 & m & g & E & _ & Hs & _)]; auto.
  exfalso.
  assert (HM : exists M A,
             pat = price_pattern M A
             /\ In M [marker_USD; marker_EUR; marker_GBP; marker_CAD;
                      marker_AUD; marker_JPY]
             /\ group_free M = true
             /\ (A = amount_dec \/ A = amount_int)).
  { destruct (patterns_at ps1 pat cur ps2 E)
      as [(_ & -> & _)|[(_ & -> & _)|[(_ & -> & _)|[(_ & -> & _)
         |[(_ & -> & _)|(_ & -> & _)]]]]];
      eexists _, _; (split; [reflexivity|]); simpl; auto 10. }
  destruct HM as (M & A & -> & HinM & HgM & HA).
  destruct (search_hit M A text m Hs HgM HA)
    as (pre & mk & ws & am & post & -> & Hsem & _).
  rewrite (marker_in_text M mk [] [] pre (ws ++ am ++ post) HinM Hsem) in Hno.
  discriminate.
Qed.

(** Use of C5 on a text without a marker. *)
Lemma parse_price_examples_witness :
  has_marker (py "about 5000") = false
  /\ parse_price_any (py "about 5000") = Return None.
Proof.
  split; [reflexivity|].
  apply (proj2 (proj2 (proj2 parse_price_examples))). reflexivity.
Defined.

(** C9.  The parser never raises, and whenever it returns a currency
    and an amount, the amount is the float read from the captured
    digits with the commas removed: the captured text is a digit,
    digits and commas, and possibly a dot and two digits, on which
    [float] does not fail, so the [except ValueError] branch that
    would return the string is not taken. *)
Theorem raw_string_fallback_unreachable text :
  (exists o, parse_price_any text = Return o)
  /\ forall p,
      parse_price_any text = Return (Some p) ->
      exists pat m g,
        In (pat, currency p) patterns
        /\ search IGNORECASE pat text = Some m
        /\ group m 2 = Some g
        /\ amount_shape g
        /\ PyFloat.of_str (remove_char (ch ",") g)
           = Return (amount_float g)
        /\ amount_of p = AmtFloat (amount_float g).
Proof.
  unfold parse_price_any. destruct (truthy text); simpl negb; cbv iota.
  2:{ split; [eauto|]. intros p H. discriminate. }
  destruct (first_match_cases patterns text patterns_ok)
    as [[Hn _]|(ps1 & pat & cur & ps2 & m & g & E & _ & Hs & Hg & Hsh & Hfm)].
  - rewrite Hn. split; [eauto|]. intros p H. discriminate.
  - rewrite Hfm. split; [eauto|]. intros p H. inversion H; subst p.
    exists pat, m, g. cbn [currency amount_of]. repeat split; auto.
    + rewrite E. apply in_or_app. right. now left.
    + now apply of_str_amount.
Qed.

(** Use of C9 on ["$1,234.56"]. *)
Lemma raw_string_fallback_unreachable_witness :
  parse_price_any (py "$1,234.56")
  = Return (Some (Price USD (AmtFloat (PyFloat.of_decimal false 123456 (-2)))))
  /\ exists pat m g,
      In (pat, USD) patterns
      /\ search IGNORECASE pat (py "$1,234.56") = Some m
      /\ group m 2 = Some g
      /\ amount_shape g
      /\ PyFloat.of_str (remove_char (ch ",") g) = Return (amount_float g)
      /\ AmtFloat (PyFloat.of_decimal false 123456 (-2))
         = AmtFloat (amount_float g).
Proof.
  split; [vm_compute; reflexivity|].
  apply (proj2 (raw_string_fallback_unreachable (py "$1,234.56"))
               (Price USD (AmtFloat (PyFloat.of_decimal false 123456 (-2))))).
  vm_compute. reflexivity.
Defined.

Lemma words_USD_Sem w mk c :
  In w words_USD -> spells w mk = true -> Sem true marker_USD mk c c.
Proof.
  unfold words_USD, marker_USD. intros [<-|[<-|[]]] H.
  - apply SemAltL. now apply word_Sem.
  - apply SemAltR, SemAltR. apply spells_one in H; [|reflexivity].
    subst. now constructor.
Qed.

(** The claim of C4 as it is worded fails: ["$ / €9"] holds a USD
    marker and an EUR marker, and the parser returns EUR, the dollar
    sign not being followed by an amount. *)
Lemma usd_marker_without_amount :
  ~ (forall text,
        contains_ci (py "$") text = true ->
        contains_ci (py "€") text = true ->
        exists a, parse_price_any text = Return (Some (Price USD a))).
Proof.
  intros H.
  destruct (H (py "$ / €9") eq_refl eq_refl) as [a Ha].
  vm_compute in Ha. discriminate.
Qed.

(** C4, amended.  A text that holds a USD marker followed, after
    optional whitespace, by an amount parses to USD, with the amount of
    the leftmost match of the USD pattern, whatever other markers the
    text holds and wherever they are. *)
Theorem usd_amount_wins text :
  priced_with words_USD text ->
  exists m g,
    search IGNORECASE (price_pattern marker_USD amount_dec) text = Some m
    /\ group m 2 = Some g
    /\ parse_price_any text
       = Return (Some (Price USD (AmtFloat (amount_float g)))).
Proof.
  intros (w & mk & Hw & Hsp & Hat).
  rewrite parse_nonempty by (eapply marked_nonempty; eauto).
  assert (Hs : search true (price_pattern marker_USD amount_dec) text
               <> None).
  { eapply search_marked; eauto. eapply words_USD_Sem; eauto. }
  destruct (search true _ text) as [m|] eqn:E; [|congruence].
  destruct (first_match_hit marker_USD amount_dec USD (tl patterns) text m E)
    as (g & Hg & _ & Hfm); auto.
  exists m, g. auto.
Qed.

(** Use of C4 on ["€9 / $10"], where the EUR marker comes first. *)
Lemma usd_amount_wins_witness :
  priced_with words_USD (py "€9 / $10")
  /\ parse_price_any (py "€9 / $10")
     = Return (Some (Price USD (AmtFloat (PyFloat.of_decimal false 10 0))))
  /\ exists m g,
      search IGNORECASE (price_pattern marker_USD amount_dec)
             (py "€9 / $10") = Some m
      /\ group m 2 = Some g
      /\ parse_price_any (py "€9 / $10")
         = Return (Some (Price USD (AmtFloat (amount_float g)))).
Proof.
  assert (H : priced_with words_USD (py "€9 / $10")).
  { exists (py "$"), (py "$"). split; [simpl; auto|].
    split; [reflexivity|].
    exists (py "€9 / "), [], (ch "1"), (py "0").
    repeat split; auto. }
  split; [exact H|]. split; [vm_compute; reflexivity|].
  apply (usd_amount_wins (py "€9 / $10") H).
Defined.

Lemma match_here_USD_fail x s :
  lit_eq_ignorecase (ch "U") x = false ->
  x <> ch "$" ->
  match_here true (price_pattern marker_USD amount_dec) (x :: s) = None.
Proof.
  intros HU Hd. apply N.eqb_neq in Hd.
  unfold match_here, price_pattern, marker_USD.
  change (word (py "USD"))
    with (Seq (Lit (ch "U")) (Seq (Lit (ch "S")) (Lit (ch "D")))).
  change (word (py "US")) with (Seq (Lit (ch "U")) (Lit (ch "S"))).
  cbn [rmatch one_char]. unfold lit_test. rewrite HU.
  change (lit_eq_ignorecase (ch "$") x) with (x =? ch "$")%N.
  now rewrite Hd.
Qed.

Lemma marker_USD_dollar s c k :
  rmatch true marker_USD (py "$" ++ s) c k = k s c.
Proof. reflexivity. Qed.

Lemma marker_EUR_sign s c k :
  rmatch true marker_EUR (py "€" ++ s) c k = k s c.
Proof. reflexivity. Qed.

Lemma letter_not_usd p x :
  In p [ch "C"; ch "A"] ->
  lit_eq_ignorecase p x = true ->
  lit_eq_ignorecase (ch "U") x = false /\ x <> ch "$".
Proof.
  intros Hp Hx. rewrite lit_plain_letter by reflexivity.
  assert (E : PyFloat.ascii_lower x = PyFloat.ascii_lower p).
  { destruct Hp as [<-|[<-|[]]];
      rewrite lit_plain_letter in Hx by reflexivity;
      now apply N.eqb_eq in Hx. }
  rewrite E. split.
  - destruct Hp as [<-|[<-|[]]]; reflexivity.
  - intros ->. destruct Hp as [<-|[<-|[]]]; discriminate.
Qed.

(** C10.  A text that holds [C$] or [A$] (in either letter case)
    followed by an amount parses to USD; when it is just that marker and
    an amount, the amount is the one after the dollar sign.  A CAD or AUD
    result arises only from a text that spells out the code before an
    amount and holds no dollar sign followed by an amount. *)
Theorem dollar_sign_shadows_CAD_AUD :
  (forall text mk,
      spells (py "C$") mk = true \/ spells (py "A$") mk = true ->
      marked_amount_at mk text ->
      exists g, parse_price_any text
                = Return (Some (Price USD (AmtFloat (amount_float g)))))
  /\ (forall p x d body,
         In p [ch "C"; ch "A"] ->
         lit_eq_ignorecase p x = true ->
         is_digit d = true ->
         Forall (fun y => is_digit_or_comma y = true) body ->
         parse_price_any (x :: ch "$" :: d :: body)
         = Return (Some (Price USD (AmtFloat (amount_float (d :: body))))))
  /\ (forall text p,
         parse_price_any text = Return (Some p) ->
         currency p = CAD \/ currency p = AUD ->
         (exists mk,
             (spells (py "CAD") mk = true \/ spells (py "AUD") mk = true)
             /\ marked_amount_at mk text)
         /\ ~ dollar_amount text).
Proof.
  split; [|split].
  - intros text mk Hmk Hat.
    assert (Hd : dollar_amount text).
    { destruct Hmk as [H|H]; apply spells_dollar_pair in H;
        destruct H as [x ->]; now apply marked_shift in Hat. }
    rewrite parse_nonempty by (eapply marked_nonempty; eauto).
    pose proof (dollar_amount_search text Hd) as Hs.
    destruct (search true _ text) as [m|] eqn:E; [|congruence].
    destruct (first_match_hit marker_USD amount_dec USD (tl patterns)
                              text m E) as (g & _ & _ & Hfm); auto.
    eauto.
  - intros p x d body Hp Hx Hd Hbody.
    destruct (letter_not_usd p x Hp Hx) as [HU Hdollar].
    rewrite parse_nonempty by reflexivity.
    assert (Hs : search true (price_pattern marker_USD amount_dec)
                        (x :: ch "$" :: d :: body)
                 = Some (MatchObj [(2, d :: body); (1, py "$")])).
    { rewrite search_skip by (apply match_here_USD_fail; auto).
      apply search_here.
      pose proof (match_here_marked_plain marker_USD (py "$")
                    marker_USD_dollar [] d body []) as H.
      rewrite app_nil_r in H. apply H; auto. }
    apply (first_match_hit_exact _ USD (tl patterns) _ _ (d :: body) Hs);
      auto.
    rewrite <- (app_nil_r body). apply AmountShape; auto.
  - intros text p Hp Hcur.
    unfold parse_price_any in Hp.
    destruct (truthy text); simpl negb in Hp; cbv iota in Hp;
      [|discriminate].
    destruct (first_match_cases patterns text patterns_ok)
      as [[Hn _]|(ps1 & pat & cur & ps2 & m & g & E & Hmiss & Hs & _ & _
                  & Hfm)]; [congruence|].
    rewrite Hfm in Hp. inversion Hp; subst p. simpl in Hcur.
    assert (Hnd : ~ dollar_amount text).
    { intros Hd. apply dollar_amount_search in Hd. apply Hd.
      apply (Hmiss _ USD). rewrite E in *.
      destruct (patterns_at ps1 pat cur ps2 E)
        as [(_ & _ & ->)|[(Hl & _)|[(Hl & _)|[(Hl & _)|[(Hl & _)|(Hl & _)]]]]];
        [destruct Hcur; discriminate| | | | |];
        destruct ps1 as [|a ps1]; try discriminate;
        inversion E; now left. }
    split; auto.
    destruct (patterns_at ps1 pat cur ps2 E)
      as [(_ & _ & ->)|[(_ & _ & ->)|[(_ & _ & ->)|[(_ & -> & _)
         |[(_ & -> & _)|(_ & _ & ->)]]]]];
      try (destruct Hcur; discriminate).
    + destruct (hit_marked marker_CAD amount_dec text m Hs)
        as (mk & Hsem & Hat); auto.
      apply Sem_marker_words in Hsem. destruct Hsem as [_ [H|H]]; eauto.
      exfalso. apply Hnd. apply spells_dollar_pair in H.
      destruct H as [x ->]. now apply marked_shift in Hat.
    + destruct (hit_marked marker_AUD amount_dec text m Hs)
        as (mk & Hsem & Hat); auto.
      apply Sem_marker_words in Hsem. destruct Hsem as [_ [H|H]]; eauto.
      exfalso. apply Hnd. apply spells_dollar_pair in H.
      destruct H as [x ->]. now apply marked_shift in Hat.
Qed.

(** Use of C10 on ["C$10"] and on ["cad 10"]. *)
Lemma dollar_sign_shadows_CAD_AUD_witness :
  (exists g, parse_price_any (py "C$10")
             = Return (Some (Price USD (AmtFloat (amount_float g)))))
  /\ parse_price_any (py "a$10")
     = Return (Some (Price USD (AmtFloat (amount_float (py "10")))))
  /\ ((exists mk,
          (spells (py "CAD") mk = true \/ spells (py "AUD") mk = true)
          /\ marked_amount_at mk (py "cad 10"))
      /\ ~ dollar_amount (py "cad 10")).
Proof.
  split; [|split].
  - apply (proj1 dollar_sign_shadows_CAD_AUD (py "C$10") (py "C$")).
    + left. reflexivity.
    + exists [], [], (ch "1"), (py "0"). repeat split; auto.
  - apply (proj1 (proj2 dollar_sign_shadows_CAD_AUD)
                 (ch "A") (ch "a") (ch "1") (py "0")).
    + simpl. auto.
    + reflexivity.
    + reflexivity.
    + repeat constructor.
  - apply (proj2 (proj2 dollar_sign_shadows_CAD_AUD) (py "cad 10")
                 (Price CAD (AmtFloat (PyFloat.of_decimal false 10 0)))).
    + vm_compute. reflexivity.
    + left. reflexivity.
Defined.

Lemma digit_euro_char x : is_digit x = true -> euro_char x = true.
Proof. intros H. unfold euro_char. now rewrite H. Qed.

Lemma group_euro_chars g :
  is_group g = true -> Forall (fun x => euro_char x = true) g.
Proof.
  unfold is_group. destruct g as [|p [|a [|b [|c [|e g]]]]]; try discriminate.
  rewrite !andb_true_iff. intros [[[Hp Ha] Hb] Hc].
  repeat constructor; auto using digit_euro_char.
  unfold euro_char. rewrite Hp. now rewrite orb_true_r.
Qed.

Lemma groups_euro_chars gs :
  Forall (fun g => is_group g = true) gs ->
  Forall (fun x => euro_char x = true) (concat gs).
Proof.
  induction 1 as [|g gs Hg _ IH]; simpl; [constructor|].
  apply Forall_app. split; auto using group_euro_chars.
Qed.

(** The claim of C2 as it is worded fails: ["€2.000,00"] is of the
    European form and the EUR pattern matches it, capturing ["2.00"]. *)
Lemma european_price_is_matched :
  european_price (py "€2.000,00")
  /\ search IGNORECASE (price_pattern marker_EUR amount_dec)
            (py "€2.000,00")
     = Some (MatchObj [(2, py "2.00"); (1, py "€")])
  /\ parse_price_any (py "€2.000,00")
     = Return (Some (Price EUR (AmtFloat (PyFloat.of_decimal false 200 (-2))))).
Proof.
  split; [|split; vm_compute; reflexivity].
  exists (py "2"), [py ".000"], (ch "0"), (ch "0").
  repeat split; try (repeat constructor); try discriminate.
Qed.

(** C2, amended.  A price of the European form is matched by the EUR
    pattern, up to the second digit after its first dot: the digits
    before that dot, the dot and the two digits after it are captured
    and read as a dot-decimal number, which the parser returns as the
    EUR amount. *)
Theorem european_price_matched_as_prefix text :
  european_price text ->
  exists lead d1 d2 rest,
    text = ch "€" :: lead ++ ch "." :: d1 :: d2 :: rest
    /\ Forall (fun x => is_digit x = true) lead
    /\ is_digit d1 = true /\ is_digit d2 = true
    /\ search IGNORECASE (price_pattern marker_EUR amount_dec) text
       = Some (MatchObj [(2, lead ++ [ch "."; d1; d2]); (1, py "€")])
    /\ parse_price_any text
       = Return (Some (Price EUR
                   (AmtFloat (amount_float (lead ++ [ch "."; d1; d2]))))).
Proof.
  intros (lead & groups & c1 & c2 & -> & Hne & _ & Hlead & Hgne & Hgroups
          & Hc1 & Hc2).
  destruct lead as [|d body]; [congruence|].
  destruct groups as [|g gs]; [congruence|].
  inversion Hlead as [|? ? Hd Hbody]; subst.
  inversion Hgroups as [|? ? Hg Hgs]; subst.
  pose proof (group_euro_chars g Hg) as Hgc.
  unfold is_group in Hg.
  destruct g as [|p [|a [|b [|c [|e g]]]]]; try discriminate.
  rewrite !andb_true_iff in Hg. destruct Hg as [[[Hp Ha] Hb] Hc].
  unfold is_dot in Hp. apply N.eqb_eq in Hp. subst p.
  set (rest := c :: concat gs ++ [ch ","; c1; c2]).
  assert (Etext : ch "€" :: (d :: body) ++ concat ([ch "."; a; b; c] :: gs)
                                 ++ [ch ","; c1; c2]
                  = ch "€" :: (d :: body) ++ ch "." :: a :: b :: rest).
  { unfold rest. reflexivity. }
  rewrite Etext.
  exists (d :: body), a, b, rest.
  assert (Hbody' : Forall (fun x => is_digit_or_comma x = true) body).
  { eapply Forall_impl; [|exact Hbody].
    intros x Hx. unfold is_digit_or_comma. now rewrite Hx. }
  assert (Hs : search true (price_pattern marker_EUR amount_dec)
                      (ch "€" :: (d :: body) ++ ch "." :: a :: b :: rest)
               = Some (MatchObj [(2, (d :: body) ++ [ch "."; a; b]);
                                 (1, py "€")])).
  { apply search_here.
    apply (match_here_marked_frac marker_EUR (py "€") marker_EUR_sign
                                  [] d body a b rest); auto. }
  repeat split; auto.
  rewrite parse_nonempty by reflexivity. unfold patterns.
  rewrite first_match_miss.
  - apply (first_match_hit_exact _ EUR _ _ _ _ Hs); auto.
    simpl. apply AmountShape; auto. right. eauto.
  - apply search_USD_euro_chars. rewrite <- Etext.
    constructor; [reflexivity|].
    apply Forall_app. split.
    + eapply Forall_impl; [|exact Hlead]. apply digit_euro_char.
    + apply Forall_app. split.
      * apply groups_euro_chars. constructor; auto.
        unfold is_group, is_dot. now rewrite N.eqb_refl, Ha, Hb, Hc.
      * repeat constructor; auto using digit_euro_char.
Qed.

(** Use of C2 on ["€12.345,67"], read as 12.34. *)
Lemma european_price_matched_as_prefix_witness :
  european_price (py "€12.345,67")
  /\ parse_price_any (py "€12.345,67")
     = Return (Some (Price EUR (AmtFloat (PyFloat.of_decimal false 1234 (-2)))))
  /\ exists lead d1 d2 rest,
      py "€12.345,67" = ch "€" :: lead ++ ch "." :: d1 :: d2 :: rest
      /\ Forall (fun x => is_digit x = true) lead
      /\ is_digit d1 = true /\ is_digit d2 = true
      /\ search IGNORECASE (price_pattern marker_EUR amount_dec)
                (py "€12.345,67")
         = Some (MatchObj [(2, lead ++ [ch "."; d1; d2]); (1, py "€")])
      /\ parse_price_any (py "€12.345,67")
         = Return (Some (Price EUR
                     (AmtFloat (amount_float (lead ++ [ch "."; d1; d2]))))).
Proof.
  assert (H : european_price (py "€12.345,67")).
  { exists (py "12"), [py ".345"], (ch "6"), (ch "7").
    repeat split; try (repeat constructor); try discriminate. }
  split; [exact H|]. split; [vm_compute; reflexivity|].
  apply (european_price_matched_as_prefix (py "€12.345,67") H).
Defined.

End PriceTheorems.

(* ================================================================= *)
(** * The pipeline and the endpoint: results *)

Module PipelineTheorems.

Import Schema Pipeline Api PriceFacts.

(** ** Query construction *)

Lemma fallbacks_truthy i :
  Forall (fun q => truthy q = true) (fallbacks i).
Proof.
  unfold fallbacks, quoted.
  assert (H : forall a b : pystr, truthy (a ++ py " " ++ b) = true).
  { intros a b. destruct a; reflexivity. }
  apply Forall_app. split.
  - repeat constructor; apply H.
  - destruct (clean_aliases i); repeat constructor. apply H.
Qed.

Lemma fallbacks_length i : 2 <= length (fallbacks i) <= 3.
Proof.
  unfold fallbacks. rewrite length_app. simpl.
  destruct (clean_aliases i); simpl; lia.
Qed.

Lemma filter_all {A} (f : A -> bool) l :
  Forall (fun x => f x = true) l -> filter f l = l.
Proof.
  induction 1 as [|x l Hx _ IH]; simpl; auto. now rewrite Hx, IH.
Qed.

Lemma in_firstn_in {A} n (l : list A) x : In x (firstn n l) -> In x l.
Proof.
  revert l. induction n as [|n IH]; intros l H; destruct l as [|y l];
    simpl in *; try contradiction.
  destruct H as [H|H]; auto.
Qed.

(** C3.  The query list is a function of five fields of the
    identification result only; it is the non-empty ones of the first 8
    suggested queries, followed by the 2 or 3 fallback queries (which
    are never empty), cut to 10: at most 10 entries, none of them
    empty. *)
Theorem queries_construction i :
  (forall j,
      brand j = brand i -> model j = model i -> category j = category i ->
      aliases j = aliases i -> suggested_queries j = suggested_queries i ->
      queries j = queries i)
  /\ length (suggested i) <= 8
  /\ 2 <= length (fallbacks i) <= 3
  /\ queries i
     = firstn 10 (filter truthy (firstn 8 (suggested_queries i))
                  ++ fallbacks i)
  /\ length (queries i) <= 10
  /\ Forall (fun q => truthy q = true) (queries i).
Proof.
  split; [|split; [|split; [|split; [|split]]]].
  - intros j Hb Hm Hc Ha Hs.
    unfold queries, suggested, fallbacks, clean_brand, clean_model,
      clean_category, clean_aliases.
    now rewrite Hb, Hm, Hc, Ha, Hs.
  - unfold suggested. rewrite length_firstn. lia.
  - apply fallbacks_length.
  - unfold queries, suggested. rewrite filter_app.
    rewrite (filter_all _ (fallbacks i)) by apply fallbacks_truthy.
    unfold py_or. destruct (suggested_queries i); reflexivity.
  - unfold queries. rewrite length_firstn. lia.
  - unfold queries. apply Forall_forall. intros q Hq.
    apply in_firstn_in in Hq. apply filter_In in Hq. tauto.
Qed.

(** ** [enumerate] *)

Lemma nth_error_combine_seq {A} (l : list A) :
  forall start n x,
    nth_error l n = Some x ->
    nth_error (combine (seq start (length l)) l) n = Some (start + n, x).
Proof.
  induction l as [|y l IH]; intros start [|n] x H; simpl in *;
    try discriminate.
  - inversion H. now rewrite Nat.add_0_r.
  - rewrite (IH (S start) n x H). f_equal. f_equal. lia.
Qed.

Lemma enumerate_length {A} (l : list A) : length (enumerate l) = length l.
Proof.
  unfold enumerate. rewrite length_combine, length_seq. lia.
Qed.

Lemma enumerate_nth {A} (l : list A) n x :
  nth_error l n = Some x -> nth_error (enumerate l) n = Some (n, x).
Proof. intros H. unfold enumerate. now rewrite (nth_error_combine_seq l 0 n x H). Qed.

Section Client.

Variable responses_create : trace -> request -> result pystr.
Variable json_loads_ident : pystr -> result ident.
Variable json_loads_listings : pystr -> result listings_data.
Variable repr_list : list pystr -> pystr.

Local Abbreviation identify' :=
  (Pipeline.identify responses_create json_loads_ident).
Local Abbreviation search_listings' :=
  (Pipeline.search_listings responses_create json_loads_listings repr_list).
Local Abbreviation search_request' := (Pipeline.search_request repr_list).
Local Abbreviation listings_call_fails' :=
  (Pipeline.listings_call_fails responses_create json_loads_listings
                                repr_list).
Local Abbreviation run' :=
  (Pipeline.run responses_create json_loads_ident json_loads_listings
                repr_list).
Local Abbreviation predict' :=
  (Api.predict responses_create json_loads_ident json_loads_listings
               repr_list).

Lemma for_each_cons {A B} (f : A -> M B) a l t :
  for_each f (a :: l) t
  = match f a t with
    | (Return b, t1) =>
      match for_each f l t1 with
      | (Return bs, t2) => (Return (b :: bs), t2)
      | (Raise e, t2) => (Raise e, t2)
      end
    | (Raise e, t1) => (Raise e, t1)
    end.
Proof.
  simpl. unfold bind, ret. destruct (f a t) as [[b|e] t1]; auto.
Qed.

(** The loop over the decoded listings does not raise: it pairs each
    listing with what the parser makes of its price text. *)
Lemma for_each_parse_listing rs t :
  exists ps,
    for_each parse_listing rs t = (Return ps, t)
    /\ Forall2 (fun r pl =>
                  listing_of pl = r
                  /\ Price.parse_price_any (price_text r)
                     = Return (parsed_price pl)) rs ps.
Proof.
  induction rs as [|r rs (ps & Hps & HF)].
  - exists []. split; [reflexivity|constructor].
  - destruct (parse_price_any_returns (price_text r)) as [o Ho].
    exists (ParsedListing r o :: ps). split.
    + assert (E : parse_listing r t = (Return (ParsedListing r o), t)).
      { unfold parse_listing, bind, lift, ret. now rewrite Ho. }
      now rewrite for_each_cons, E, Hps.
    + constructor; auto.
Qed.

Lemma search_listings_returns self i max_results t :
  exists l,
    search_listings' self i max_results t
    = (Return l, t ++ [Create (search_request' self i max_results)]).
Proof.
  unfold Pipeline.search_listings, try_except, bind, create, lift, ret.
  destruct (responses_create t _) as [txt|e]; [|eauto].
  destruct (json_loads_listings txt) as [data|e]; [|eauto].
  destruct (for_each_parse_listing (data_results data)
              (t ++ [Create (search_request' self i max_results)]))
    as (ps & Hps & _).
  rewrite Hps. eauto.
Qed.

Lemma search_listings_failure self i max_results t e :
  listings_call_fails' self i max_results t e ->
  search_listings' self i max_results t
  = (Return (degraded i e),
     t ++ [Create (search_request' self i max_results)]).
Proof.
  unfold Pipeline.search_listings, try_except, bind, create, lift, ret.
  intros [H|(txt & H & Hj)]; rewrite H; [reflexivity|].
  now rewrite Hj.
Qed.

(** C1.  [search_listings] never raises, whatever the identification
    result and whatever the client and the decoder do; when the remote
    call or the decoding of its output raises [e], it returns the
    degraded object: [queries_used] is the query list built locally,
    [results] is empty, and [error] is a non-empty string made of the
    type and the message of [e]. *)
Theorem search_listings_degrades self i max_results t :
  (exists l,
      search_listings' self i max_results t
      = (Return l, t ++ [Create (search_request' self i max_results)]))
  /\ forall e,
      listings_call_fails' self i max_results t e ->
      exists l,
        search_listings' self i max_results t
        = (Return l, t ++ [Create (search_request' self i max_results)])
        /\ queries_used l = queries i
        /\ results l = []
        /\ error l = Some (py "web_search unavailable or failed: "
                           ++ exn_type e ++ py ": " ++ exn_msg e)
        /\ exists msg, error l = Some msg /\ truthy msg = true.
Proof.
  split; [apply search_listings_returns|].
  intros e He. exists (degraded i e).
  split; [now apply search_listings_failure|].
  repeat split. eexists. split; reflexivity.
Qed.

(** ** [run] *)

Lemma run_identify_raises self urls desc hint max_results t e t1 :
  identify' self urls desc hint t = (Raise e, t1) ->
  run' self urls desc hint max_results t = (Raise e, t1).
Proof. intros H. unfold Pipeline.run, bind. now rewrite H. Qed.

Lemma run_identify_returns self urls desc hint max_results t i t1 :
  identify' self urls desc hint t = (Return i, t1) ->
  exists l,
    search_listings' self i max_results t1
    = (Return l, t1 ++ [Create (search_request' self i max_results)])
    /\ run' self urls desc hint max_results t
       = (Return (RunOutput i l),
          t1 ++ [Create (search_request' self i max_results)]).
Proof.
  intros H. destruct (search_listings_returns self i max_results t1)
    as [l Hl].
  exists l. split; auto. unfold Pipeline.run, bind, ret.
  now rewrite H, Hl.
Qed.

(** ** [predict] *)

Lemma shape_response_fields out r :
  shape_response out = Return r ->
  to_float (estimated_market_value_usd (identification out))
  = Return (predicted_price r)
  /\ resp_currency r = py "USD"
  /\ to_float (confidence (identification out))
     = Return (resp_confidence r)
  /\ resp_brand r = brand (identification out)
  /\ resp_model r = model (identification out)
  /\ resp_category r = category (identification out)
  /\ length (similar_listings r) = length (results (listings_of out))
  /\ forall n l,
      nth_error (results (listings_of out)) n = Some l ->
      nth_error (similar_listings r) n
      = Some (SimilarListing (str_of_nat n)
                             (title (listing_of l))
                             (price_text (listing_of l))
                             (url (listing_of l))
                             (source (listing_of l))).
Proof.
  unfold shape_response.
  destruct (to_float (estimated_market_value_usd _)) as [pp|e];
    [|discriminate].
  destruct (to_float (confidence _)) as [cf|e]; [|discriminate].
  intros H. inversion H; subst r; clear H. simpl.
  repeat split; auto.
  - now rewrite length_map, enumerate_length.
  - intros n l Hl. rewrite nth_error_map, (enumerate_nth _ n l Hl).
    reflexivity.
Qed.

Lemma predict_accepted image t :
  not_an_image image = false ->
  predict' image t
  = match run' pipe [data_url_of image] [] [] 10 (t ++ [ReadBody]) with
    | (Raise e, t2) => (Unhandled e, t2)
    | (Return out, t2) =>
      match shape_response out with
      | Raise e => (Unhandled e, t2)
      | Return r => (Ok r, t2)
      end
    end.
Proof. intros H. unfold Api.predict. now rewrite H. Qed.

Lemma predict_ok_accepted image t r t' :
  predict' image t = (Ok r, t') -> not_an_image image = false.
Proof.
  unfold Api.predict. destruct (not_an_image image); auto. discriminate.
Qed.

(** C6.  When the request succeeds, the pipeline run has returned, and
    the response carries the floats of the estimated market value and of
    the confidence of its identification, the currency ["USD"], and one
    similar listing per listing record of the search step, the i-th
    with the decimal text of i as id; the response exists whenever the
    run returns and the two [float(...)] calls do. *)
Theorem predict_response_shape image t :
  (forall r t',
      predict' image t = (Ok r, t') ->
      exists out,
        run' pipe [data_url_of image] [] [] 10 (t ++ [ReadBody])
        = (Return out, t')
        /\ to_float (estimated_market_value_usd (identification out))
           = Return (predicted_price r)
        /\ resp_currency r = py "USD"
        /\ to_float (confidence (identification out))
           = Return (resp_confidence r)
        /\ length (similar_listings r) = length (results (listings_of out))
        /\ forall n l,
            nth_error (results (listings_of out)) n = Some l ->
            exists sl,
              nth_error (similar_listings r) n = Some sl
              /\ sl_id sl = str_of_nat n)
  /\ (forall out t' pp cf,
         not_an_image image = false ->
         run' pipe [data_url_of image] [] [] 10 (t ++ [ReadBody])
         = (Return out, t') ->
         to_float (estimated_market_value_usd (identification out))
         = Return pp ->
         to_float (confidence (identification out)) = Return cf ->
         exists r, predict' image t = (Ok r, t')
                   /\ predicted_price r = pp /\ resp_confidence r = cf).
Proof.
  split.
  - intros r t' H. pose proof (predict_ok_accepted image t r t' H) as Hacc.
    rewrite (predict_accepted image t Hacc) in H.
    destruct (run' _ _ _ _ _ _) as [[out|e] t2]; [|discriminate].
    destruct (shape_response out) as [r'|e] eqn:Hsh; [|discriminate].
    inversion H; subst r' t2; clear H.
    destruct (shape_response_fields out r Hsh)
      as (H1 & H2 & H3 & _ & _ & _ & H7 & H8).
    exists out. repeat split; auto.
    intros n l Hl. eexists. split; [apply (H8 n l Hl)|reflexivity].
  - intros out t' pp cf Hacc Hrun Hpp Hcf.
    rewrite (predict_accepted image t Hacc), Hrun.
    unfold shape_response. rewrite Hpp, Hcf. eexists. split; eauto.
Qed.

(** C7.  A failure of the identification call propagates out of [run]
    and ends the request unhandled, without a listings call; once the
    identification has returned, [run] returns whatever the listings
    call does, with the degraded listings when that call fails: [run]
    raises exactly when the identification does. *)
Theorem failure_asymmetry self urls desc hint max_results t :
  (forall e t1,
      identify' self urls desc hint t = (Raise e, t1) ->
      run' self urls desc hint max_results t = (Raise e, t1))
  /\ (forall i t1,
         identify' self urls desc hint t = (Return i, t1) ->
         exists l t2,
           run' self urls desc hint max_results t
           = (Return (RunOutput i l), t2)
           /\ forall e, listings_call_fails' self i max_results t1 e ->
                        l = degraded i e)
  /\ (forall e t2,
         run' self urls desc hint max_results t = (Raise e, t2) ->
         identify' self urls desc hint t = (Raise e, t2))
  /\ (forall image t0 e t1,
         not_an_image image = false ->
         identify' pipe [data_url_of image] [] [] (t0 ++ [ReadBody])
         = (Raise e, t1) ->
         predict' image t0 = (Unhandled e, t1)).
Proof.
  split; [|split; [|split]].
  - intros e t1. apply run_identify_raises.
  - intros i t1 H.
    destruct (run_identify_returns self urls desc hint max_results t i t1 H)
      as (l & Hl & Hrun).
    exists l, (t1 ++ [Create (search_request' self i max_results)]).
    split; auto. intros e He.
    rewrite (search_listings_failure self i max_results t1 e He) in Hl.
    now inversion Hl.
  - intros e t2 H.
    destruct (identify' self urls desc hint t) as [[i|e'] t1] eqn:Hid.
    + destruct (run_identify_returns self urls desc hint max_results
                                     t i t1 Hid) as (l & _ & Hrun).
      rewrite Hrun in H. discriminate.
    + rewrite (run_identify_raises self urls desc hint max_results
                                   t e' t1 Hid) in H.
      now inversion H.
  - intros image t0 e t1 Hacc H.
    rewrite (predict_accepted image t0 Hacc).
    now rewrite (run_identify_raises pipe _ _ _ 10 _ e t1 H).
Qed.

(** C8.  An upload whose declared content type is absent, or does not
    start with ["image/"], is answered with HTTP 400 and the trace is
    left as it was: the body is not read and no remote call is made. *)
Theorem non_image_rejected image t :
  content_type image = None
  \/ (exists ct, content_type image = Some ct
                 /\ startswith ct (py "image/") = false) ->
  predict' image t = (HTTPException 400 (py "Upload an image file."), t).
Proof.
  intros H. unfold Api.predict, not_an_image.
  destruct H as [H|(ct & H & Hs)]; rewrite H; simpl or_none.
  - reflexivity.
  - rewrite Hs. simpl negb. now rewrite orb_true_r.
Qed.

End Client.

(** ** The theorems at work on the scripted client *)

Import Scenario.

(** Use of C1: the web search is down. *)
Lemma search_listings_degrades_witness :
  listings_call_fails client_search_down loads_listings repr_plain
                      pipe chanel 10 [] connection_error
  /\ exists l,
      search_listings client_search_down loads_listings repr_plain
                      pipe chanel 10 []
      = (Return l, [] ++ [Create (search_request repr_plain pipe chanel 10)])
      /\ queries_used l = queries chanel
      /\ results l = []
      /\ error l = Some (py "web_search unavailable or failed: "
                         ++ exn_type connection_error ++ py ": "
                         ++ exn_msg connection_error)
      /\ exists msg, error l = Some msg /\ truthy msg = true.
Proof.
  assert (H : listings_call_fails client_search_down loads_listings
                                  repr_plain pipe chanel 10 []
                                  connection_error)
    by (left; reflexivity).
  split; [exact H|].
  apply (proj2 (search_listings_degrades client_search_down loads_listings
                  repr_plain pipe chanel 10 []) connection_error H).
Defined.

(** Use of C3: another rationale, the same queries. *)
Lemma queries_construction_witness :
  queries (Ident (brand chanel) (model chanel) (category chanel)
                 (aliases chanel) (NInt 1) (attributes_of chanel)
                 (typical_price_range_usd chanel) (NInt 0)
                 (suggested_queries chanel) [])
  = queries chanel
  /\ queries chanel
     = [py "Chanel Classic Flap price"; py "Chanel 2.55 resale";
        py "Chanel " ++ [dquote] ++ py "Classic Flap" ++ [dquote]
          ++ py " price";
        py "Chanel " ++ [dquote] ++ py "Classic Flap" ++ [dquote]
          ++ py " handbag listing";
        py "Chanel " ++ [dquote] ++ py "2.55" ++ [dquote]
          ++ py " handbag listing"].
Proof.
  split; [|vm_compute; reflexivity].
  apply (proj1 (queries_construction chanel)); reflexivity.
Defined.

(** Use of C6: the end-to-end scenario, a JPEG identified as a Chanel
    Classic Flap worth 4800 with confidence 0.82 and three listings. *)
Lemma predict_response_shape_witness :
  exists r t',
    predict client_up loads_ident loads_listings repr_plain jpeg []
    = (Ok r, t')
    /\ predicted_price r = PyFloat.of_decimal false 4800 0
    /\ resp_confidence r = PyFloat.of_decimal false 82 (-2)
    /\ resp_brand r = py "Chanel"
    /\ map sl_id (similar_listings r) = [py "0"; py "1"; py "2"]
    /\ exists out,
        run client_up loads_ident loads_listings repr_plain pipe
            [data_url_of jpeg] [] [] 10 ([] ++ [ReadBody])
        = (Return out, t')
        /\ to_float (estimated_market_value_usd (identification out))
           = Return (predicted_price r)
        /\ resp_currency r = py "USD"
        /\ to_float (confidence (identification out))
           = Return (resp_confidence r)
        /\ length (similar_listings r) = length (results (listings_of out))
        /\ forall n l,
            nth_error (results (listings_of out)) n = Some l ->
            exists sl,
              nth_error (similar_listings r) n = Some sl
              /\ sl_id sl = str_of_nat n.
Proof.
  eexists _, _. split; [vm_compute; reflexivity|].
  split; [vm_compute; reflexivity|].
  split; [vm_compute; reflexivity|].
  split; [vm_compute; reflexivity|].
  split; [vm_compute; reflexivity|].
  apply (proj1 (predict_response_shape client_up loads_ident loads_listings
                                       repr_plain jpeg [])).
  vm_compute. reflexivity.
Defined.

(** Use of C7: with nothing answering the request ends unhandled; with
    only the web search down it completes. *)
Lemma failure_asymmetry_witness :
  (exists t1,
      identify client_down loads_ident pipe [data_url_of jpeg] [] [] []
      = (Raise connection_error, t1)
      /\ run client_down loads_ident loads_listings repr_plain pipe
             [data_url_of jpeg] [] [] 10 []
         = (Raise connection_error, t1))
  /\ (exists t1,
         identify client_search_down loads_ident pipe [data_url_of jpeg]
                  [] [] []
         = (Return chanel, t1)
         /\ exists l t2,
             run client_search_down loads_ident loads_listings repr_plain
                 pipe [data_url_of jpeg] [] [] 10 []
             = (Return (RunOutput chanel l), t2)
             /\ forall e,
                 listings_call_fails client_search_down loads_listings
                                     repr_plain pipe chanel 10 t1 e ->
                 l = degraded chanel e).
Proof.
  split.
  - eexists. split; [vm_compute; reflexivity|].
    apply (proj1 (failure_asymmetry client_down loads_ident loads_listings
                    repr_plain pipe [data_url_of jpeg] [] [] 10 [])).
    vm_compute. reflexivity.
  - eexists. split; [vm_compute; reflexivity|].
    apply (proj1 (proj2 (failure_asymmetry client_search_down loads_ident
                           loads_listings repr_plain pipe
                           [data_url_of jpeg] [] [] 10 []))).
    vm_compute. reflexivity.
Defined.

(** Use of C8: a text file, and a file without a declared type. *)
Lemma non_image_rejected_witness :
  (content_type text_file = None
   \/ exists ct, content_type text_file = Some ct
                 /\ startswith ct (py "image/") = false)
  /\ predict client_up loads_ident loads_listings repr_plain text_file []
     = (HTTPException 400 (py "Upload an image file."), [])
  /\ predict client_up loads_ident loads_listings repr_plain untyped_file []
     = (HTTPException 400 (py "Upload an image file."), []).
Proof.
  assert (H : content_type text_file = None
              \/ exists ct, content_type text_file = Some ct
                            /\ startswith ct (py "image/") = false).
  { right. exists (py "text/plain"). split; reflexivity. }
  split; [exact H|]. split.
  - apply (non_image_rejected client_up loads_ident loads_listings
                              repr_plain text_file [] H).
  - apply (non_image_rejected client_up loads_ident loads_listings
                              repr_plain untyped_file []).
    left. reflexivity.
Defined.

End PipelineTheorems.

(* ================================================================= *)
(** * More on the pipeline and the endpoint *)

Module PipelineMore.

Import Schema Pipeline Api PipelineSpec PriceSpec PriceFacts
       PipelineTheorems.

(** ** The query list *)

Lemma firstn_app_short {A} n (l1 l2 : list A) :
  length l1 <= n ->
  firstn n (l1 ++ l2) = l1 ++ firstn (n - length l1) l2.
Proof.
  intros H. rewrite firstn_app. f_equal. now apply firstn_all2.
Qed.

Lemma filter_length_le {A} (f : A -> bool) l :
  length (filter f l) <= length l.
Proof.
  induction l as [|x l IH]; simpl; auto. destruct (f x); simpl; lia.
Qed.

Lemma kept_suggested_length i : length (filter truthy (suggested i)) <= 8.
Proof.
  pose proof (filter_length_le truthy (suggested i)) as H.
  unfold suggested in *. rewrite length_firstn in H. lia.
Qed.

Lemma queries_split i :
  queries i
  = filter truthy (suggested i)
    ++ firstn (10 - length (filter truthy (suggested i))) (fallbacks i).
Proof.
  unfold queries. rewrite filter_app.
  rewrite (filter_all _ (fallbacks i)) by apply fallbacks_truthy.
  apply firstn_app_short.
  eapply Nat.le_trans; [apply kept_suggested_length|lia].
Qed.

(** X1.  The two fallback queries made of brand, model and category are
    always in the query list; the third one, made of the first alias,
    is in it when fewer than 8 non-empty suggestions were kept, and is
    cut off when 8 were. *)
Theorem fallback_queries_kept i :
  (forall q, In q (firstn 2 (fallbacks i)) -> In q (queries i))
  /\ (length (filter truthy (suggested i)) < 8 ->
      forall q, In q (fallbacks i) -> In q (queries i))
  /\ (length (filter truthy (suggested i)) = 8 ->
      queries i = filter truthy (suggested i) ++ firstn 2 (fallbacks i)).
Proof.
  pose proof (kept_suggested_length i) as Hk.
  pose proof (fallbacks_length i) as Hf.
  rewrite queries_split.
  split; [|split].
  - intros q Hq. apply in_or_app. right.
    remember (10 - length (filter truthy (suggested i))) as n eqn:En.
    assert (Hn : 2 <= n) by lia.
    destruct (fallbacks i) as [|f1 [|f2 fs]]; simpl in *; try lia.
    destruct n as [|[|n]]; try lia. simpl.
    destruct Hq as [<-|[<-|[]]]; auto.
  - intros Hlt q Hq. apply in_or_app. right.
    rewrite firstn_all2; auto. lia.
  - intros ->. reflexivity.
Qed.

(** Use of X1 on an identification with 8 non-empty suggestions. *)
Lemma fallback_queries_kept_witness :
  let i := Ident (py "Chanel") (py "Flap") (py "bag") [py "2.55"]
                 (NInt 1) (attributes_of Scenario.chanel)
                 (typical_price_range_usd Scenario.chanel) (NInt 1)
                 (repeat (py "q") 9) [] in
  length (filter truthy (suggested i)) = 8
  /\ queries i = filter truthy (suggested i) ++ firstn 2 (fallbacks i)
  /\ length (queries i) = 10.
Proof.
  intros i.
  assert (H : length (filter truthy (suggested i)) = 8) by reflexivity.
  split; [exact H|]. split; [|reflexivity].
  apply (proj2 (proj2 (fallback_queries_kept i)) H).
Defined.

(** ** The identification request *)

Lemma images_of_app a b : images_of (a ++ b) = images_of a ++ images_of b.
Proof.
  induction a as [|[s|u] a IH]; simpl; auto. now rewrite IH.
Qed.

Lemma images_of_images urls : images_of (map InputImage urls) = urls.
Proof. induction urls as [|u urls IH]; simpl; auto. now rewrite IH. Qed.

Lemma texts_of_app a b : texts_of (a ++ b) = texts_of a ++ texts_of b.
Proof.
  induction a as [|[s|u] a IH]; simpl; auto. now rewrite IH.
Qed.

Lemma texts_of_images urls : texts_of (map InputImage urls) = [].
Proof. induction urls as [|u urls IH]; simpl; auto. Qed.

Lemma lstrip_blank s :
  Forall (fun x => is_space x = true) s -> lstrip s = [].
Proof. induction 1 as [|x s Hx _ IH]; simpl; auto. now rewrite Hx. Qed.

Lemma strip_blank s :
  Forall (fun x => is_space x = true) s -> strip s = [].
Proof.
  intros H. unfold strip, rstrip. now rewrite (lstrip_blank s H).
Qed.

(** ** The ids of the similar listings *)

Lemma uint_str_inj d1 :
  forall d2, uint_str d1 = uint_str d2 -> d1 = d2.
Proof.
  induction d1 as [|d1 IH|d1 IH|d1 IH|d1 IH|d1 IH|d1 IH|d1 IH|d1 IH|d1 IH
                   |d1 IH];
    intros [|d2|d2|d2|d2|d2|d2|d2|d2|d2|d2] H; simpl in H;
    try discriminate; auto;
    inversion H as [H']; f_equal; now apply IH.
Qed.

Lemma str_of_nat_inj n m : str_of_nat n = str_of_nat m -> n = m.
Proof.
  unfold str_of_nat. intros H. apply uint_str_inj in H.
  now apply Unsigned.to_uint_inj.
Qed.

Lemma NoDup_map_inj {A B} (f : A -> B) l :
  (forall x y, f x = f y -> x = y) -> NoDup l -> NoDup (map f l).
Proof.
  intros Hf. induction 1 as [|x l Hx _ IH]; simpl; constructor; auto.
  intros Hin. apply in_map_iff in Hin. destruct Hin as (y & Hy & Hin).
  apply Hf in Hy. now subst.
Qed.

Lemma ids_of_enumerate {A} (l : list A) start (f : nat * A -> pystr) :
  (forall n x, f (n, x) = str_of_nat n) ->
  map f (combine (seq start (length l)) l)
  = map str_of_nat (seq start (length l)).
Proof.
  intros Hf. revert start.
  induction l as [|x l IH]; intros start; simpl; auto.
  now rewrite Hf, IH.
Qed.

(** X4.  The ids of the similar listings of a response are the decimal
    texts of 0, 1, 2, ... in order, so no two listings of a response
    share an id. *)
Theorem similar_listing_ids_distinct out r :
  shape_response out = Return r ->
  map sl_id (similar_listings r)
  = map str_of_nat (seq 0 (length (results (listings_of out))))
  /\ NoDup (map sl_id (similar_listings r)).
Proof.
  unfold shape_response.
  destruct (to_float (estimated_market_value_usd _)) as [pp|e];
    [|discriminate].
  destruct (to_float (confidence _)) as [cf|e]; [|discriminate].
  intros H. inversion H; subst r; clear H. cbn [similar_listings].
  assert (E : map sl_id (map shape_listing
                             (enumerate (results (listings_of out))))
              = map str_of_nat
                    (seq 0 (length (results (listings_of out))))).
  { rewrite map_map. unfold enumerate. apply ids_of_enumerate.
    intros n x. reflexivity. }
  split; [exact E|]. rewrite E.
  apply NoDup_map_inj; [apply str_of_nat_inj|apply seq_NoDup].
Qed.

(** Use of X4 on a run with twelve listings. *)
Lemma similar_listing_ids_distinct_witness :
  let out := RunOutput Scenario.chanel
               (Listings [] (repeat (ParsedListing Scenario.listing_usd None)
                                    12) None) in
  exists r,
    shape_response out = Return r
    /\ map sl_id (similar_listings r)
       = [py "0"; py "1"; py "2"; py "3"; py "4"; py "5"; py "6"; py "7";
          py "8"; py "9"; py "10"; py "11"]
    /\ NoDup (map sl_id (similar_listings r)).
Proof.
  intros out. eexists. split; [vm_compute; reflexivity|].
  split; [vm_compute; reflexivity|].
  apply (similar_listing_ids_distinct out). vm_compute. reflexivity.
Defined.

(** ** The content-type check *)

Lemma startswith_truthy ct p w :
  startswith ct (p :: w) = true -> truthy ct = true.
Proof. destruct ct; [discriminate|reflexivity]. Qed.

(** X5.  An upload passes the check exactly when it declares a content
    type that starts with ["image/"] (letters compared as they are);
    the data URL then carries that declared type, so the ["image/png"]
    default is never used. *)
Theorem upload_check image :
  (not_an_image image = false <->
   exists ct, content_type image = Some ct
              /\ startswith ct (py "image/") = true)
  /\ (not_an_image image = false ->
      exists ct, content_type image = Some ct
                 /\ data_url_of image
                    = py "data:" ++ ct ++ py ";base64,"
                      ++ b64encode (file_bytes image)).
Proof.
  unfold not_an_image, data_url_of, bytes_to_data_url.
  destruct (content_type image) as [ct|]; simpl or_none.
  - split; [split|].
    + intros H. exists ct. split; auto.
      apply orb_false_iff in H. destruct H as [_ H].
      now apply negb_false_iff in H.
    + intros (ct' & E & Hs). inversion E; subst ct'.
      rewrite Hs. change (py "image/") with (ch "i" :: py "mage/") in Hs.
      now rewrite (startswith_truthy ct _ _ Hs).
    + intros H. exists ct. split; auto.
      apply orb_false_iff in H. destruct H as [H _].
      apply negb_false_iff in H. unfold py_or. now rewrite H.
  - split; [split|]; try discriminate.
    intros (ct & E & _). discriminate.
Qed.

(** Use of X5 on the JPEG upload. *)
Lemma upload_check_witness :
  not_an_image Scenario.jpeg = false
  /\ exists ct, content_type Scenario.jpeg = Some ct
                /\ data_url_of Scenario.jpeg
                   = py "data:" ++ ct ++ py ";base64,"
                     ++ b64encode (file_bytes Scenario.jpeg).
Proof.
  assert (H : not_an_image Scenario.jpeg = false) by reflexivity.
  split; [exact H|]. apply (proj2 (upload_check Scenario.jpeg) H).
Defined.

Section Client.

Variable responses_create : trace -> request -> result pystr.
Variable json_loads_ident : pystr -> result ident.
Variable json_loads_listings : pystr -> result listings_data.
Variable repr_list : list pystr -> pystr.

Local Abbreviation identify' :=
  (Pipeline.identify responses_create json_loads_ident).
Local Abbreviation search_listings' :=
  (Pipeline.search_listings responses_create json_loads_listings repr_list).
Local Abbreviation search_request' := (Pipeline.search_request repr_list).
Local Abbreviation listings_call_fails' :=
  (Pipeline.listings_call_fails responses_create json_loads_listings
                                repr_list).
Local Abbreviation run' :=
  (Pipeline.run responses_create json_loads_ident json_loads_listings
                repr_list).
Local Abbreviation predict' :=
  (Api.predict responses_create json_loads_ident json_loads_listings
               repr_list).

Lemma identify_unfold self urls desc hint t :
  identify' self urls desc hint t
  = (match responses_create t (ident_request self urls desc hint) with
     | Return output_text => json_loads_ident output_text
     | Raise e => Raise e
     end,
     t ++ [Create (ident_request self urls desc hint)]).
Proof.
  unfold Pipeline.identify, bind, create, lift, ident_request, ident_content.
  destruct (responses_create t _); reflexivity.
Qed.

(** X2.  [identify] makes exactly one remote call, to the
    identification model, without tools and with the identification
    schema; its message holds the instructions first, the images given,
    all of them and in order, and at most two more texts; a description
    or a hint made of whitespace only adds no text. *)
Theorem identify_request_shape self urls desc hint t :
  exists r,
    identify' self urls desc hint t
    = (r, t ++ [Create (ident_request self urls desc hint)])
    /\ req_model (ident_request self urls desc hint) = model_ident self
    /\ req_tools (ident_request self urls desc hint) = []
    /\ req_format (ident_request self urls desc hint) = IDENT_SCHEMA_FORMAT
    /\ images_of (req_content (ident_request self urls desc hint)) = urls
    /\ hd_error (texts_of (req_content (ident_request self urls desc hint)))
       = Some ident_instructions
    /\ length (texts_of (req_content (ident_request self urls desc hint)))
       <= 3
    /\ (Forall (fun x => is_space x = true) desc ->
        Forall (fun x => is_space x = true) hint ->
        texts_of (req_content (ident_request self urls desc hint))
        = [ident_instructions]).
Proof.
  eexists. split; [apply identify_unfold|].
  unfold ident_request, ident_content. cbn [req_model req_tools req_format
                                             req_content].
  repeat split.
  - rewrite !images_of_app, images_of_images.
    destruct (truthy (strip desc)), (truthy (strip hint)); reflexivity.
  - rewrite !texts_of_app, texts_of_images.
    destruct (truthy (strip desc)), (truthy (strip hint)); simpl; lia.
  - intros Hd Hh. rewrite (strip_blank desc Hd), (strip_blank hint Hh).
    simpl. now rewrite texts_of_images.
Qed.

(** ** The listings call when it answers *)

(** X3.  When the listings call and the decoding of its output return,
    [search_listings] returns the decoded object without an error
    entry: the queries are those the provider reports, not the local
    list, and the results are the decoded listings, all of them and in
    order, each paired with what [parse_price_any] makes of its price
    text; a price text without a currency marker gives no parsed
    price and does not stop the call. *)
Theorem search_listings_success self i max_results t output_text data :
  responses_create t (search_request' self i max_results)
  = Return output_text ->
  json_loads_listings output_text = Return data ->
  exists rs,
    search_listings' self i max_results t
    = (Return (Listings (data_queries_used data) rs None),
       t ++ [Create (search_request' self i max_results)])
    /\ map listing_of rs = data_results data
    /\ (forall pl, In pl rs ->
          Price.parse_price_any (price_text (listing_of pl))
          = Return (parsed_price pl))
    /\ (forall pl, In pl rs ->
          has_marker (price_text (listing_of pl)) = false ->
          parsed_price pl = None).
Proof.
  intros Hc Hj.
  destruct (for_each_parse_listing (data_results data)
              (t ++ [Create (search_request' self i max_results)]))
    as (rs & Hrs & HF).
  exists rs.
  assert (Hmap : map listing_of rs = data_results data
                 /\ forall pl, In pl rs ->
                      Price.parse_price_any (price_text (listing_of pl))
                      = Return (parsed_price pl)).
  { clear Hrs. induction HF as [|r pl rs0 ps [E1 E2] _ [IH1 IH2]].
    - split; auto. intros pl [].
    - split; [simpl; now rewrite E1, IH1|].
      intros pl' [<-|Hin]; auto. now rewrite E1. }
  destruct Hmap as [Hm Hp].
  split; [|split; [exact Hm|split; [exact Hp|]]].
  - unfold Pipeline.search_listings, try_except, bind, create, lift, ret.
    now rewrite Hc, Hj, Hrs.
  - intros pl Hin Hno. pose proof (Hp pl Hin) as H.
    destruct (truthy (price_text (listing_of pl))) eqn:Ht.
    2:{ unfold Price.parse_price_any in H. rewrite Ht in H.
        now inversion H. }
    rewrite (PriceTheorems.parse_nonempty _ Ht) in H.
    destruct (first_match_cases Price.patterns (price_text (listing_of pl))
                                patterns_ok)
      as [[Hn _]|(ps1 & pat & cur & ps2 & m & g & E & _ & Hs & _)].
    + rewrite Hn in H. now inversion H.
    + exfalso.
      assert (HM : exists M A,
                 pat = Price.price_pattern M A
                 /\ In M [Price.marker_USD; Price.marker_EUR;
                          Price.marker_GBP; Price.marker_CAD;
                          Price.marker_AUD; Price.marker_JPY]
                 /\ ReSem.group_free M = true
                 /\ (A = Price.amount_dec \/ A = Price.amount_int)).
      { destruct (patterns_at ps1 pat cur ps2 E)
          as [(_ & -> & _)|[(_ & -> & _)|[(_ & -> & _)|[(_ & -> & _)
             |[(_ & -> & _)|(_ & -> & _)]]]]];
          eexists _, _; (split; [reflexivity|]); simpl; auto 10. }
      destruct HM as (M & A & -> & HinM & HgM & HA).
      destruct (search_hit M A _ m Hs HgM HA)
        as (pre & mk & ws & am & post & Etext & Hsem & _).
      rewrite Etext in Hno.
      rewrite (marker_in_text M mk [] [] pre (ws ++ am ++ post) HinM Hsem)
        in Hno.
      discriminate.
Qed.

(** ** The course of a request *)

Lemma predict_rejection image t code detail t' :
  predict' image t = (HTTPException code detail, t') ->
  not_an_image image = true.
Proof.
  unfold Api.predict. destruct (not_an_image image); auto.
  destruct (run' _ _ _ _ _ _) as [[out|e] t2]; [|discriminate].
  destruct (shape_response out); discriminate.
Qed.

(** X6.  A request with an image upload reads the body first and once,
    then makes the identification call; it makes the listings call next,
    and only then, when the identification has returned, so that a
    request makes at most two remote calls; the only HTTP error the
    handler raises itself is the 400 of the content-type check. *)
Theorem predict_call_sequence image t o t' :
  predict' image t = (o, t') ->
  (not_an_image image = true
   /\ o = HTTPException 400 (py "Upload an image file.") /\ t' = t)
  \/ (not_an_image image = false
      /\ exists r,
          identify' pipe [data_url_of image] [] [] (t ++ [ReadBody])
          = (r, t ++ [ReadBody;
                      Create (ident_request pipe [data_url_of image] [] [])])
          /\ match r with
             | Raise e =>
               o = Unhandled e
               /\ t' = t ++ [ReadBody;
                             Create (ident_request pipe [data_url_of image]
                                                   [] [])]
             | Return i =>
               t' = t ++ [ReadBody;
                          Create (ident_request pipe [data_url_of image]
                                                [] []);
                          Create (search_request' pipe i 10)]
               /\ forall code detail, o <> HTTPException code detail
             end).
Proof.
  intros H. destruct (not_an_image image) eqn:Hacc.
  - left. unfold Api.predict in H. rewrite Hacc in H.
    inversion H. auto.
  - right. split; auto.
    pose proof (identify_unfold pipe [data_url_of image] [] []
                                (t ++ [ReadBody])) as Hid.
    rewrite <- app_assoc in Hid. simpl app in Hid.
    eexists. split; [exact Hid|].
    rewrite (predict_accepted responses_create json_loads_ident
                              json_loads_listings repr_list image t Hacc) in H.
    destruct (match responses_create _ _ with
              | Return output_text => json_loads_ident output_text
              | Raise e => Raise e
              end) as [i|e] eqn:Er.
    + destruct (run_identify_returns responses_create json_loads_ident
                  json_loads_listings repr_list pipe _ _ _ 10 _ i _ Hid)
        as (l & _ & Hrun).
      rewrite Hrun in H. rewrite <- app_assoc in H. simpl app in H.
      destruct (shape_response _); inversion H; subst;
        split; auto; discriminate.
    + rewrite (run_identify_raises responses_create json_loads_ident
                 json_loads_listings repr_list pipe _ _ _ 10 _ e _ Hid) in H.
      inversion H. auto.
Qed.

(** X7.  With an image upload, an identification that has returned and
    a listings call that fails, the request still succeeds when the two
    [float(...)] calls do: the response has the identification fields
    and an empty list of similar listings, and the error text of the
    degraded listings is not part of it. *)
Theorem predict_with_search_down image t i e pp cf :
  not_an_image image = false ->
  fst (identify' pipe [data_url_of image] [] [] (t ++ [ReadBody]))
  = Return i ->
  listings_call_fails'
    pipe i 10
    (t ++ [ReadBody; Create (ident_request pipe [data_url_of image] [] [])])
    e ->
  to_float (estimated_market_value_usd i) = Return pp ->
  to_float (confidence i) = Return cf ->
  fst (predict' image t)
  = Ok (Response pp (py "USD") cf (brand i) (model i) (category i) []).
Proof.
  intros Hacc Hid Hfail Hpp Hcf.
  pose proof (identify_unfold pipe [data_url_of image] [] []
                              (t ++ [ReadBody])) as Hu.
  rewrite <- app_assoc in Hu. simpl app in Hu.
  rewrite Hu in Hid. simpl fst in Hid. rewrite Hid in Hu.
  destruct (run_identify_returns responses_create json_loads_ident
              json_loads_listings repr_list pipe _ _ _ 10 _ i _ Hu)
    as (l & Hl & Hrun).
  rewrite (search_listings_failure responses_create json_loads_listings
             repr_list pipe i 10 _ e Hfail) in Hl.
  inversion Hl; subst l.
  rewrite (predict_accepted responses_create json_loads_ident
                              json_loads_listings repr_list image t Hacc), Hrun.
  unfold shape_response. cbn [identification listings_of].
  now rewrite Hpp, Hcf.
Qed.

End Client.

(** Use of X3, X6 and X7 on the scripted client. *)

Import Scenario.

(** Use of X2 on a description of blanks. *)
Lemma identify_request_shape_witness :
  texts_of (req_content (ident_request pipe [py "data:a"; py "data:b"]
                                       (py "   ") [newline]))
  = [ident_instructions]
  /\ images_of (req_content (ident_request pipe [py "data:a"; py "data:b"]
                                           (py "   ") [newline]))
     = [py "data:a"; py "data:b"].
Proof.
  destruct (identify_request_shape client_up loads_ident pipe
                                   [py "data:a"; py "data:b"]
                                   (py "   ") [newline] [])
    as (r & _ & _ & _ & _ & Himg & _ & _ & Hblank).
  split; [|exact Himg].
  apply Hblank; repeat constructor.
Defined.

Lemma search_listings_success_witness :
  exists rs,
    search_listings client_up loads_listings repr_plain pipe chanel 10 []
    = (Return (Listings (data_queries_used found) rs None),
       [] ++ [Create (search_request repr_plain pipe chanel 10)])
    /\ map listing_of rs = data_results found
    /\ map parsed_price rs
       = [Some (Price.Price Price.USD
                  (Price.AmtFloat (PyFloat.of_decimal false 475000 (-2))));
          Some (Price.Price Price.EUR
                  (Price.AmtFloat (PyFloat.of_decimal false 450 (-2))));
          None].
Proof.
  destruct (search_listings_success client_up loads_listings repr_plain
              pipe chanel 10 [] (py "listings") found eq_refl eq_refl)
    as (rs & Hs & Hm & _).
  exists rs. split; [exact Hs|]. split; [exact Hm|].
  vm_compute in Hs. inversion Hs. reflexivity.
Defined.

Lemma predict_call_sequence_witness :
  exists o t',
    predict client_up loads_ident loads_listings repr_plain jpeg []
    = (o, t')
    /\ t' = [ReadBody;
             Create (ident_request pipe [data_url_of jpeg] [] []);
             Create (search_request repr_plain pipe chanel 10)].
Proof.
  destruct (predict client_up loads_ident loads_listings repr_plain jpeg [])
    as [o t'] eqn:E.
  exists o, t'. split; [reflexivity|].
  destruct (predict_call_sequence client_up loads_ident loads_listings
              repr_plain jpeg [] o t' E)
    as [(H & _)|(_ & r & Hid & Hr)]; [discriminate|].
  vm_compute in Hid. inversion Hid; subst r. destruct Hr as [Hr _].
  exact Hr.
Defined.

Lemma predict_with_search_down_witness :
  fst (predict client_search_down loads_ident loads_listings repr_plain
               jpeg [])
  = Ok (Response (PyFloat.of_decimal false 4800 0) (py "USD")
                 (PyFloat.of_decimal false 82 (-2))
                 (py "Chanel") (py "Classic Flap") (py "handbag") []).
Proof.
  apply (predict_with_search_down client_search_down loads_ident
           loads_listings repr_plain jpeg [] chanel connection_error).
  - reflexivity.
  - reflexivity.
  - left. reflexivity.
  - reflexivity.
  - reflexivity.
Defined.

End PipelineMore.

(* ================================================================= *)
(** * More on the price parser *)

Module PriceMore.

Import Re ReSem ReFacts Price PriceSpec PyFloatFacts PriceFacts.

Lemma amount_dec_greedy d body rest c k m :
  is_digit d = true ->
  Forall (fun x => is_digit_or_comma x = true) body ->
  ends_run rest = true ->
  k (skipn (length (fraction_of rest)) rest) c = Some m ->
  rmatch true amount_dec (d :: body ++ rest) c k = Some m.
Proof.
  intros Hd Hbody Hend Hk.
  unfold fraction_of in Hk.
  destruct (starts_fraction rest) eqn:Hf.
  - unfold starts_fraction in Hf.
    destruct rest as [|p [|d1 [|d2 rest]]]; try discriminate.
    rewrite !andb_true_iff in Hf. destruct Hf as [[Hp H1] H2].
    unfold is_dot in Hp. apply N.eqb_eq in Hp. subst p.
    simpl in Hk. now apply amount_dec_greedy_frac.
  - simpl in Hk.
    unfold amount_dec, digit, digit_or_comma. cbn [rmatch one_char].
    rewrite set_test_digit, Hd.
    apply star_one_char_greedy
      with (test := set_test true [SRange (ch "0") (ch "9");
                                   SChar (ch ",")]);
      auto using digits_or_commas.
    + destruct rest as [|y rest]; auto.
      rewrite set_test_digit_or_comma. simpl in Hend.
      now apply negb_true_iff in Hend.
    + destruct rest as [|p rest]; cbn [rmatch one_char]; auto.
      unfold lit_test.
      change (lit_eq_ignorecase (ch ".") p) with (is_dot p).
      destruct (is_dot p) eqn:Hp; [|now rewrite Hk].
      destruct rest as [|d1 rest]; cbn [times_loop one_char];
        [now rewrite Hk|].
      rewrite set_test_digit.
      destruct (is_digit d1) eqn:H1; [|now rewrite Hk].
      destruct rest as [|d2 rest]; cbn [one_char]; [now rewrite Hk|].
      rewrite set_test_digit.
      destruct (is_digit d2) eqn:H2; [|now rewrite Hk].
      unfold starts_fraction in Hf. rewrite Hp, H1, H2 in Hf.
      discriminate.
Qed.

Lemma fraction_of_split rest :
  rest = fraction_of rest ++ skipn (length (fraction_of rest)) rest.
Proof.
  unfold fraction_of. destruct (starts_fraction rest) eqn:Hf; auto.
  unfold starts_fraction in Hf.
  destruct rest as [|p [|d1 [|d2 rest]]]; try discriminate. reflexivity.
Qed.

Lemma fraction_of_shape rest :
  fraction_of rest = []
  \/ exists d1 d2, fraction_of rest = [ch "."; d1; d2]
                   /\ is_digit d1 = true /\ is_digit d2 = true.
Proof.
  unfold fraction_of. destruct (starts_fraction rest) eqn:Hf; auto.
  unfold starts_fraction in Hf.
  destruct rest as [|p [|d1 [|d2 rest]]]; try discriminate.
  rewrite !andb_true_iff in Hf. destruct Hf as [[Hp H1] H2].
  unfold is_dot in Hp. apply N.eqb_eq in Hp. subst p.
  right. exists d1, d2. auto.
Qed.

(** The anchored match of a price pattern whose marker is taken as a
    whole: whitespace is skipped, and the amount is the longest run of
    digits and commas with its fraction, if any. *)
Lemma match_here_marked M mk
      (HM : forall s c k, rmatch true M (mk ++ s) c k = k s c)
      ws d body rest :
  Forall (fun x => is_space x = true) ws ->
  is_digit d = true ->
  Forall (fun x => is_digit_or_comma x = true) body ->
  ends_run rest = true ->
  match_here true (price_pattern M amount_dec)
             (mk ++ ws ++ d :: body ++ rest)
  = Some (MatchObj [(2, d :: body ++ fraction_of rest); (1, mk)]).
Proof.
  intros Hws Hd Hbody Hend.
  unfold match_here, price_pattern. cbn [rmatch]. rewrite HM.
  match goal with
  | |- match ?X with _ => _ end = _ =>
    assert (E : X = Some [(2, d :: body ++ fraction_of rest); (1, mk)])
  end.
  { apply star_one_char_greedy with (test := is_space); auto.
    - now apply digit_not_space.
    - apply amount_dec_greedy; auto.
      rewrite (consumed_eq _ (d :: body ++ fraction_of rest)
                           (skipn (length (fraction_of rest)) rest)).
      + rewrite (consumed_eq _ mk _) by reflexivity. reflexivity.
      + simpl. rewrite <- app_assoc. now rewrite <- fraction_of_split. }
  now rewrite E.
Qed.

Lemma search_skip_all ic r pre s :
  (forall x s', In x pre -> match_here ic r (x :: s') = None) ->
  search ic r (pre ++ s) = search ic r s.
Proof.
  induction pre as [|x pre IH]; intros H; auto.
  simpl app. rewrite search_skip by (apply H; now left).
  apply IH. intros y s' Hy. apply H. now right.
Qed.

Lemma match_here_USD_none x s :
  head_USD x = false ->
  match_here true (price_pattern marker_USD amount_dec) (x :: s) = None.
Proof.
  unfold head_USD. intros H. apply orb_false_iff in H.
  destruct H as [HU Hd].
  unfold match_here, price_pattern, marker_USD.
  change (word (py "USD"))
    with (Seq (Lit (ch "U")) (Seq (Lit (ch "S")) (Lit (ch "D")))).
  change (word (py "US")) with (Seq (Lit (ch "U")) (Lit (ch "S"))).
  cbn [rmatch one_char]. unfold lit_test. rewrite HU.
  change (lit_eq_ignorecase (ch "$") x) with (x =? ch "$")%N.
  now rewrite Hd.
Qed.

Lemma amount_shape_run d body rest :
  is_digit d = true ->
  Forall (fun x => is_digit_or_comma x = true) body ->
  amount_shape (d :: body ++ fraction_of rest).
Proof.
  intros Hd Hbody. apply AmountShape; auto. apply fraction_of_shape.
Qed.

(** X8.  In a text whose first dollar sign is followed, after optional
    whitespace, by a digit, and which has no [U] before it, the parser
    returns USD with the amount that starts there: the longest run of
    digits and commas, with a dot and two digits after it if they are
    there.  Commas are dropped wherever they stand, a fraction of one
    digit is not read, and what follows the amount is ignored. *)
Theorem first_dollar_amount pre ws d body rest :
  Forall (fun x => head_USD x = false) pre ->
  Forall (fun x => is_space x = true) ws ->
  is_digit d = true ->
  Forall (fun x => is_digit_or_comma x = true) body ->
  ends_run rest = true ->
  parse_price_any (pre ++ ch "$" :: ws ++ d :: body ++ rest)
  = Return (Some (Price USD
               (AmtFloat (amount_float (d :: body ++ fraction_of rest))))).
Proof.
  intros Hpre Hws Hd Hbody Hend.
  assert (Hs : search true (price_pattern marker_USD amount_dec)
                      (pre ++ ch "$" :: ws ++ d :: body ++ rest)
               = Some (MatchObj [(2, d :: body ++ fraction_of rest);
                                 (1, py "$")])).
  { rewrite search_skip_all.
    - apply search_here.
      apply (match_here_marked marker_USD (py "$")
                               PriceTheorems.marker_USD_dollar
                               ws d body rest); auto.
    - intros x s' Hx. apply match_here_USD_none.
      rewrite Forall_forall in Hpre. now apply Hpre. }
  unfold parse_price_any.
  assert (Ht : truthy (pre ++ ch "$" :: ws ++ d :: body ++ rest) = true)
    by (destruct pre; reflexivity).
  rewrite Ht. simpl negb. cbv iota. unfold patterns.
  apply (first_match_hit_exact _ USD _ _ _ _ Hs); auto.
  now apply amount_shape_run.
Qed.

(** Use of X8 on ["from $1,299.5 (was $1,500.00)"]: the first amount,
    without its one-digit fraction. *)
Lemma first_dollar_amount_witness :
  parse_price_any (py "from $1,299.5 (was $1,500.00)")
  = Return (Some (Price USD (AmtFloat (PyFloat.of_decimal false 1299 0)))).
Proof.
  assert (H : parse_price_any (py "from " ++ ch "$" :: [] ++ ch "1"
                                 :: py ",299" ++ py ".5 (was $1,500.00)")
              = Return (Some (Price USD
                   (AmtFloat (amount_float
                      (ch "1" :: py ",299"
                          ++ fraction_of (py ".5 (was $1,500.00)"))))))).
  { apply first_dollar_amount; repeat constructor. }
  exact H.
Defined.

(** ** Amounts in yen *)

Lemma match_here_marked_int M mk
      (HM : forall s c k, rmatch true M (mk ++ s) c k = k s c)
      ws d body rest :
  Forall (fun x => is_space x = true) ws ->
  is_digit d = true ->
  Forall (fun x => is_digit_or_comma x = true) body ->
  ends_run rest = true ->
  match_here true (price_pattern M amount_int)
             (mk ++ ws ++ d :: body ++ rest)
  = Some (MatchObj [(2, d :: body); (1, mk)]).
Proof.
  intros Hws Hd Hbody Hend.
  unfold match_here, price_pattern. cbn [rmatch]. rewrite HM.
  match goal with
  | |- match ?X with _ => _ end = _ =>
    assert (E : X = Some [(2, d :: body); (1, mk)])
  end.
  { apply star_one_char_greedy with (test := is_space); auto.
    - now apply digit_not_space.
    - apply amount_int_greedy; auto.
      + destruct rest; auto. simpl in Hend.
        now apply negb_true_iff in Hend.
      + rewrite (consumed_eq _ (d :: body) rest) by reflexivity.
        rewrite (consumed_eq _ mk _) by reflexivity.
        reflexivity. }
  now rewrite E.
Qed.

Lemma marker_JPY_sign s c k :
  rmatch true marker_JPY (py "¥" ++ s) c k = k s c.
Proof. reflexivity. Qed.

Lemma head_of_letter p x :
  In p [ch "U"; ch "E"; ch "G"; ch "C"; ch "A"] ->
  lit_eq_ignorecase p x = true -> head_before_JPY x = true.
Proof.
  intros Hp Hx. unfold head_before_JPY. apply orb_true_iff. left.
  apply existsb_exists. exists p. auto.
Qed.

Lemma head_of_sign x :
  In x [ch "$"; ch "€"; ch "£"] -> head_before_JPY x = true.
Proof.
  intros Hx. unfold head_before_JPY. apply orb_true_iff. right.
  apply existsb_exists. exists x. split; auto. apply N.eqb_refl.
Qed.

Lemma spells_head_letter p w mk :
  In p [ch "U"; ch "E"; ch "G"; ch "C"; ch "A"] ->
  spells (p :: w) mk = true ->
  exists x t, mk = x :: t /\ head_before_JPY x = true.
Proof.
  intros Hp H. apply spells_head in H. destruct H as (x & t & -> & Hx).
  exists x, t. split; auto. eapply head_of_letter; eauto.
Qed.

(** The markers of the first five patterns start with one of five
    letters or with a dollar, euro or pound sign. *)
Lemma marker_heads M mk c c1 :
  In M [marker_USD; marker_EUR; marker_GBP; marker_CAD; marker_AUD] ->
  Sem true M mk c c1 ->
  exists x t, mk = x :: t /\ head_before_JPY x = true.
Proof.
  intros HM H. simpl in HM. destruct HM as [<-|[<-|[<-|[<-|[<-|[]]]]]].
  - apply Sem_marker_USD in H.
    destruct H as [_ [H|[->|(us & sp & -> & H & _)]]].
    + apply (spells_head_letter (ch "U") (py "SD")); simpl; auto.
    + exists (ch "$"), []. split; auto.
    + apply (spells_head_letter (ch "U") (py "S")) in H; simpl; auto.
      destruct H as (x & t & -> & Hx). exists x, (t ++ sp ++ py "$").
      auto.
  - apply Sem_marker_code in H; [|reflexivity]. destruct H as [_ [H| ->]].
    + apply (spells_head_letter (ch "E") (py "UR")); simpl; auto.
    + exists (ch "€"), []. split; auto.
  - apply Sem_marker_code in H; [|reflexivity]. destruct H as [_ [H| ->]].
    + apply (spells_head_letter (ch "G") (py "BP")); simpl; auto.
    + exists (ch "£"), []. split; auto.
  - apply Sem_marker_words in H. destruct H as [_ [H|H]].
    + apply (spells_head_letter (ch "C") (py "AD")); simpl; auto.
    + apply (spells_head_letter (ch "C") (py "$")); simpl; auto.
  - apply Sem_marker_words in H. destruct H as [_ [H|H]].
    + apply (spells_head_letter (ch "A") (py "UD")); simpl; auto 6.
    + apply (spells_head_letter (ch "A") (py "$")); simpl; auto 6.
Qed.

Lemma yen_char_range x :
  yen_char x = true ->
  ((x <= 57)%N \/ (133 <= x)%N)
  /\ x <> 36%N /\ x <> 163%N /\ x <> 8364%N.
Proof.
  unfold yen_char, plain_char, is_digit, is_dot, is_space.
  change (ch ".") with 46%N. change (ch ",") with 44%N.
  change (ch "¥") with 165%N.
  repeat rewrite ?orb_true_iff, ?andb_true_iff, ?N.leb_le, ?N.eqb_eq.
  lia.
Qed.

Lemma yen_char_not_head x : yen_char x = true -> head_before_JPY x = false.
Proof.
  intros H. apply yen_char_range in H. destruct H as (Hr & H1 & H2 & H3).
  assert (Hl : PyFloat.ascii_lower x = x).
  { unfold PyFloat.ascii_lower.
    destruct (N.leb_spec 65 x); destruct (N.leb_spec x 90); simpl; auto.
    lia. }
  unfold head_before_JPY. cbn [existsb].
  rewrite !lit_plain_letter by reflexivity. rewrite Hl.
  change (PyFloat.ascii_lower (ch "U")) with 117%N.
  change (PyFloat.ascii_lower (ch "E")) with 101%N.
  change (PyFloat.ascii_lower (ch "G")) with 103%N.
  change (PyFloat.ascii_lower (ch "C")) with 99%N.
  change (PyFloat.ascii_lower (ch "A")) with 97%N.
  change (ch "$") with 36%N. change (ch "€") with 8364%N.
  change (ch "£") with 163%N.
  repeat match goal with
         | |- context [(x =? ?b)%N] => destruct (N.eqb_spec x b); [lia|]
         end.
  reflexivity.
Qed.

Lemma search_none_yen_text M text :
  In M [marker_USD; marker_EUR; marker_GBP; marker_CAD; marker_AUD] ->
  group_free M = true ->
  Forall (fun x => yen_char x = true) text ->
  search true (price_pattern M amount_dec) text = None.
Proof.
  intros HM Hg Hall.
  destruct (search true _ text) as [m|] eqn:Hs; auto. exfalso.
  apply search_hit in Hs; auto.
  destruct Hs as (pre & mk & ws & am & post & -> & Hsem & _).
  apply Forall_app in Hall. destruct Hall as [_ Hall].
  apply Forall_app in Hall. destruct Hall as [Hmk _].
  destruct (marker_heads M mk [] [] HM Hsem) as (x & t & -> & Hx).
  inversion Hmk; subst.
  rewrite (yen_char_not_head x) in Hx by assumption. discriminate.
Qed.

(** X9.  A text made of the yen sign, optional whitespace, a run of
    digits and commas, and then only digits, dots, commas and
    whitespace, parses to JPY with the number the run spells: the JPY
    pattern reads no fraction, so a dot and what follows it are left
    out. *)
Theorem yen_amount_without_fraction ws d body rest :
  Forall (fun x => is_space x = true) ws ->
  is_digit d = true ->
  Forall (fun x => is_digit_or_comma x = true) body ->
  ends_run rest = true ->
  Forall (fun x => plain_char x = true) rest ->
  parse_price_any (ch "¥" :: ws ++ d :: body ++ rest)
  = Return (Some (Price JPY (AmtFloat (amount_float (d :: body))))).
Proof.
  intros Hws Hd Hbody Hend Hrest.
  assert (Hall : Forall (fun x => yen_char x = true)
                        (ch "¥" :: ws ++ d :: body ++ rest)).
  { assert (Hp : forall x, plain_char x = true -> yen_char x = true).
    { intros x Hx. unfold yen_char. now rewrite Hx. }
    constructor; [reflexivity|].
    apply Forall_app. split.
    - eapply Forall_impl; [|exact Hws]. intros x Hx. apply Hp.
      unfold plain_char. rewrite Hx. now rewrite !orb_true_r.
    - constructor.
      + apply Hp. unfold plain_char. now rewrite Hd.
      + apply Forall_app. split.
        * eapply Forall_impl; [|exact Hbody]. intros x Hx. apply Hp.
          unfold plain_char. unfold is_digit_or_comma in Hx.
          apply orb_true_iff in Hx. destruct Hx as [Hx|Hx]; rewrite Hx;
            now rewrite ?orb_true_r.
        * eapply Forall_impl; [|exact Hrest]. exact Hp. }
  assert (Hs : search true (price_pattern marker_JPY amount_int)
                      (ch "¥" :: ws ++ d :: body ++ rest)
               = Some (MatchObj [(2, d :: body); (1, py "¥")])).
  { apply search_here.
    apply (match_here_marked_int marker_JPY (py "¥") marker_JPY_sign
                                 ws d body rest); auto. }
  unfold parse_price_any. simpl negb. cbv iota. unfold patterns.
  rewrite !first_match_miss
    by (apply search_none_yen_text; simpl; auto 10).
  apply (first_match_hit_exact _ JPY _ _ _ _ Hs); auto.
  rewrite <- (app_nil_r body). apply AmountShape; auto.
Qed.

(** Use of X9 on ["¥ 5,000.50"], read as 5000. *)
Lemma yen_amount_without_fraction_witness :
  parse_price_any (py "¥ 5,000.50")
  = Return (Some (Price JPY (AmtFloat (PyFloat.of_decimal false 5000 0)))).
Proof.
  assert (H : parse_price_any (ch "¥" :: py " " ++ ch "5" :: py ",000"
                                  ++ py ".50")
              = Return (Some (Price JPY
                   (AmtFloat (amount_float (ch "5" :: py ",000")))))).
  { apply yen_amount_without_fraction; repeat constructor. }
  exact H.
Defined.

End PriceMore.

(* ================================================================= *)
(** * The data URL *)

Module DataUrl.

Import Pipeline PipelineSpec.

Ltac euclid := zify; Z.to_euclidean_division_equations; lia.

Lemma regroup4 n :
  (n / 262144 * 262144 + (n / 4096) mod 64 * 4096
   + (n / 64) mod 64 * 64 + n mod 64 = n)%N.
Proof. euclid. Qed.

Lemma bytes_of_three a b c :
  (a < 256 -> b < 256 -> c < 256 ->
   (a * 65536 + b * 256 + c) / 65536 = a
   /\ ((a * 65536 + b * 256 + c) / 256) mod 256 = b
   /\ (a * 65536 + b * 256 + c) mod 256 = c
   /\ (a * 65536 + b * 256 + c) / 262144 < 64)%N.
Proof. intros. euclid. Qed.

Lemma bytes_of_two a b :
  (a < 256 -> b < 256 ->
   ((a * 65536 + b * 256) / 262144 * 262144
    + ((a * 65536 + b * 256) / 4096) mod 64 * 4096
    + ((a * 65536 + b * 256) / 64) mod 64 * 64) / 65536 = a
   /\ (((a * 65536 + b * 256) / 262144 * 262144
        + ((a * 65536 + b * 256) / 4096) mod 64 * 4096
        + ((a * 65536 + b * 256) / 64) mod 64 * 64) / 256) mod 256 = b
   /\ (a * 65536 + b * 256) / 262144 < 64)%N.
Proof. intros. euclid. Qed.

Lemma bytes_of_one a :
  (a < 256 ->
   ((a * 65536) / 262144 * 262144
    + ((a * 65536) / 4096) mod 64 * 4096) / 65536 = a
   /\ (a * 65536) / 262144 < 64)%N.
Proof. intros. euclid. Qed.

Ltac cases_N :=
  repeat (match goal with
          | |- context [(?a <? ?b)%N] => destruct (N.ltb_spec a b)
          | |- context [(?a <=? ?b)%N] => destruct (N.leb_spec a b)
          | |- context [(?a =? ?b)%N] => destruct (N.eqb_spec a b)
          | _ : context [(?a =? ?b)%N] |- _ => destruct (N.eqb_spec a b)
          end; cbn [andb orb]);
  try reflexivity; try lia; try (exfalso; lia).

Lemma b64_index_char i : (i < 64)%N -> b64_index (b64_char i) = i.
Proof. intros H. unfold b64_char, b64_index. cases_N. Qed.

Lemma b64_char_not_pad i : (b64_char i =? 61)%N = false.
Proof. unfold b64_char. cases_N. Qed.

Lemma b64_char_alphabet i : is_b64_char (b64_char i) = true.
Proof. unfold b64_char, is_b64_char. cases_N. Qed.

Lemma mod64_lt n : (n mod 64 < 64)%N.
Proof. apply N.mod_lt. discriminate. Qed.

(** Induction on a list, three elements at a time. *)
Lemma list_ind3 {A} (P : list A -> Prop) :
  P [] -> (forall a, P [a]) -> (forall a b, P [a; b]) ->
  (forall a b c l, P l -> P (a :: b :: c :: l)) ->
  forall l, P l.
Proof.
  intros H0 H1 H2 H3 l.
  assert (H : forall n l, length l <= n -> P l).
  { induction n as [|n IH]; intros [|a [|b [|c l']]] Hl; simpl in Hl;
      auto; try lia.
    apply H3. apply IH. lia. }
  apply (H (length l)). lia.
Qed.

Lemma b64encode_three a b c l :
  b64encode (a :: b :: c :: l)
  = [b64_char ((a * 65536 + b * 256 + c) / 262144);
     b64_char (((a * 65536 + b * 256 + c) / 4096) mod 64);
     b64_char (((a * 65536 + b * 256 + c) / 64) mod 64);
     b64_char ((a * 65536 + b * 256 + c) mod 64)]%N ++ b64encode l.
Proof. reflexivity. Qed.

Lemma b64decode_four c1 c2 c3 c4 rest :
  (c3 =? 61)%N = false -> (c4 =? 61)%N = false ->
  b64decode (c1 :: c2 :: c3 :: c4 :: rest)
  = [((b64_index c1 * 262144 + b64_index c2 * 4096 + b64_index c3 * 64
       + b64_index c4) / 65536)%N;
     (((b64_index c1 * 262144 + b64_index c2 * 4096 + b64_index c3 * 64
        + b64_index c4) / 256) mod 256)%N;
     ((b64_index c1 * 262144 + b64_index c2 * 4096 + b64_index c3 * 64
       + b64_index c4) mod 256)%N] ++ b64decode rest.
Proof. intros H3 H4. simpl. now rewrite H3, H4. Qed.

(** X10.  The base64 text of the data URL reads back to the bytes it
    was made from, so two uploads with the same declared type and
    different contents never share a data URL. *)
Theorem data_url_carries_the_bytes bs :
  Forall (fun b => is_byte b = true) bs ->
  b64decode (b64encode bs) = bs
  /\ forall bs' mime,
      Forall (fun b => is_byte b = true) bs' ->
      bytes_to_data_url bs mime = bytes_to_data_url bs' mime ->
      bs = bs'.
Proof.
  assert (Hrt : forall l, Forall (fun b => is_byte b = true) l ->
                          b64decode (b64encode l) = l).
  { intros l. induction l as [|a|a b|a b c l IH] using list_ind3;
      intros H.
    - reflexivity.
    - inversion H as [|? ? Ha _]; subst. apply N.ltb_lt in Ha.
      destruct (bytes_of_one a Ha) as [E1 E2].
      simpl. rewrite b64_index_char by assumption.
      rewrite b64_index_char by apply mod64_lt. now rewrite E1.
    - inversion H as [|? ? Ha H']; subst.
      inversion H' as [|? ? Hb _]; subst.
      apply N.ltb_lt in Ha. apply N.ltb_lt in Hb.
      destruct (bytes_of_two a b Ha Hb) as (E1 & E2 & E3).
      simpl. rewrite b64_char_not_pad.
      rewrite b64_index_char by assumption.
      rewrite !b64_index_char by apply mod64_lt. now rewrite E1, E2.
    - inversion H as [|? ? Ha H']; subst.
      inversion H' as [|? ? Hb H'']; subst.
      inversion H'' as [|? ? Hc Hl]; subst.
      apply N.ltb_lt in Ha. apply N.ltb_lt in Hb. apply N.ltb_lt in Hc.
      destruct (bytes_of_three a b c Ha Hb Hc) as (E1 & E2 & E3 & E4).
      rewrite b64encode_three. simpl app.
      rewrite b64decode_four by apply b64_char_not_pad.
      rewrite b64_index_char by assumption.
      rewrite !b64_index_char by apply mod64_lt.
      rewrite regroup4, E1, E2, E3, (IH Hl). reflexivity. }
  intros H. split; [now apply Hrt|].
  intros bs' mime H' E. unfold bytes_to_data_url in E.
  apply app_inv_head in E. apply app_inv_head in E.
  apply app_inv_head in E.
  rewrite <- (Hrt bs H), <- (Hrt bs' H'). now rewrite E.
Qed.

(** Use of X10 on the first bytes of a JPEG file. *)
Lemma data_url_carries_the_bytes_witness :
  bytes_to_data_url [255; 216; 255; 224]%N (py "image/jpeg")
  = py "data:image/jpeg;base64,/9j/4A=="
  /\ b64decode (b64encode [255; 216; 255; 224]%N)
     = [255; 216; 255; 224]%N.
Proof.
  split; [vm_compute; reflexivity|].
  assert (H : Forall (fun b => is_byte b = true) [255; 216; 255; 224]%N)
    by (repeat constructor).
  apply (proj1 (data_url_carries_the_bytes [255; 216; 255; 224]%N H)).
Defined.

(** X11.  The base64 text has four characters for every three bytes,
    rounded up, all of them letters, digits, [+], [/] or the [=] of the
    padding. *)
Theorem b64encode_shape bs :
  length (b64encode bs) = 4 * ((length bs + 2) / 3)
  /\ Forall (fun x => is_b64_char x = true) (b64encode bs).
Proof.
  induction bs as [|a|a b|a b c l [IH1 IH2]] using list_ind3.
  - split; [reflexivity|constructor].
  - split; [reflexivity|].
    simpl. repeat constructor; apply b64_char_alphabet.
  - split; [reflexivity|].
    simpl. repeat constructor; apply b64_char_alphabet.
  - rewrite b64encode_three. split.
    + rewrite length_app, IH1. cbn [length].
      replace (S (S (S (length l))) + 2) with ((length l + 2) + 1 * 3)
        by lia.
      rewrite Nat.div_add by discriminate. lia.
    + apply Forall_app. split; auto.
      repeat constructor; apply b64_char_alphabet.
Qed.

End DataUrl.
